(** * Semantic search edge function: shallow embedding and verification

    Embeds [supabase/functions/semantic-search/index.ts] (the HTTP handler,
    [performSemanticSearch], [performTextSearch], [generateEmbedding]) and
    the SQL function [match_members] of migration
    [20250626110138_young_moon.sql].

    Modelling conventions
    - JavaScript strings are sequences of code units below 256 ([string]);
      [toLowerCase] and [trim] act on that range.
    - JavaScript and SQL floating-point numbers are exact rationals or
      NaN ([num]); rounding is outside the model.
    - The [limit] of a request body is any JSON value; of a value that is
      no number the model keeps what the handler observes, its truthiness
      and its conversion to a number.
    - [async] functions are computations in a writer/exception monad [Eff]:
      the log records every function invocation and backend call, the
      outcome is a returned value or a thrown JavaScript value.
    - PostgREST filters are structured values. A term of letters, digits
      and the LIKE wildcards is interpreted; what the filter syntax makes
      of a term with any other character is left to the world.

    Also embedded, from the pages: [performSearch], [handleFileSelect],
    [handleFileUpload] (search page), [handleAddSkill],
    [handleRemoveSkill] and [transformStandupData] (member page). *)

From Stdlib Require Import Bool List ZArith QArith Qminmax Ascii String Lia.
From Stdlib Require Import Sorting.Sorted Sorting.Permutation.
From Stdlib Require Import Floats.SpecFloat.
From Stdlib Require Import DecimalString.
Import ListNotations.

Local Open Scope string_scope.
Local Open Scope Z_scope.

(** ** JavaScript strings *)

Module Js.

Definition code (c : ascii) : N := N_of_ascii c.

(** [String.prototype.toLowerCase], on code units below 256. *)
Definition lower_char (c : ascii) : ascii :=
  let n := code c in
  if ((65 <=? n) && (n <=? 90))%N then ascii_of_N (n + 32)
  else if ((192 <=? n) && (n <=? 222) && negb (n =? 215))%N then ascii_of_N (n + 32)
  else c.

Fixpoint toLowerCase (s : string) : string :=
  match s with
  | EmptyString => EmptyString
  | String c s' => String (lower_char c) (toLowerCase s')
  end.

(** White space and line terminators removed by [String.prototype.trim]. *)
Definition is_space (c : ascii) : bool :=
  let n := code c in
  (((9 <=? n) && (n <=? 13)) || (n =? 32) || (n =? 160))%N.

Fixpoint trimStart (s : string) : string :=
  match s with
  | EmptyString => EmptyString
  | String c s' => if is_space c then trimStart s' else s
  end.

(** Drops trailing white space: a character is kept when it is not white
    space or when something is kept after it. *)
Fixpoint trimEnd (s : string) : string :=
  match s with
  | EmptyString => EmptyString
  | String c s' =>
      match trimEnd s' with
      | EmptyString => if is_space c then EmptyString else String c EmptyString
      | t => String c t
      end
  end.

Definition trim (s : string) : string := trimEnd (trimStart s).

(** [s.split(sep)] for a one-character separator: always at least one
    piece, empty pieces kept. *)
Fixpoint split (sep : ascii) (s : string) : list string :=
  match s with
  | EmptyString => [EmptyString]
  | String c s' =>
      if Ascii.eqb c sep then EmptyString :: split sep s'
      else match split sep s' with
           | [] => [String c EmptyString]
           | piece :: rest => String c piece :: rest
           end
  end.

(** [pieces.join(sep)]. *)
Fixpoint join (sep : string) (pieces : list string) : string :=
  match pieces with
  | [] => EmptyString
  | [p] => p
  | p :: rest => p ++ sep ++ join sep rest
  end.

(** [s.includes(t)]: [t] occurs in [s] as a contiguous substring. *)
Fixpoint includes (s t : string) : bool :=
  String.prefix t s ||
  match s with
  | EmptyString => false
  | String _ s' => includes s' t
  end.

Definition truthy (s : string) : bool :=
  match s with EmptyString => false | _ => true end.

End Js.

Definition space : ascii := " "%char.

(** ** Numbers *)

(** A [float8] of the database, and what JavaScript holds for it: a
    number, or NaN. JSON has no NaN; the database writes the text NaN in
    its place, which JavaScript keeps as it is. *)
Inductive num :=
| Fin (q : Q)
| NaN.

(** A JavaScript number handed on as a row count: an integer, a number
    that is no integer, an infinity, or NaN. *)
Inductive count :=
| whole (n : Z)
| part (q : Q)
| infinite (negative : bool)
| not_a_number.

Coercion whole : Z >-> count.

(** The number a rational is: an integer where its value is one. *)
Definition number (q : Q) : count :=
  if (Qnum q mod Zpos (Qden q) =? 0)%Z then whole (Qnum q / Zpos (Qden q))%Z
  else part q.

(** ** The database: tables [members] and [teams] *)

Definition vector := list Q.

Record member_row := {
  m_id : Z;
  m_name : string;
  m_email : string;
  m_role : string;
  m_description : option string;
  m_skills : option (list string);
  m_profile_picture : option string;
  m_team_id : option Z;
  m_embedding : option vector
}.

Record team_row := { t_id : Z; t_name : string }.

(** One row of [match_members]' [RETURNS TABLE], as the RPC delivers it:
    every column may hold SQL NULL. *)
Record match_row := {
  mr_id : Z;
  mr_name : string;
  mr_email : string;
  mr_role : string;
  mr_description : option string;
  mr_skills : option (list string);
  mr_profile_picture : option string;
  mr_team : option string;
  mr_match_score : option num;
  mr_distance : option num
}.

(** One row of the text search's [select]: the member columns and the
    embedded [team:teams(name)]. *)
Record selected_row := {
  s_id : Z;
  s_name : string;
  s_email : string;
  s_role : string;
  s_description : option string;
  s_skills : option (list string);
  s_profile_picture : option string;
  s_team : option string
}.

Record SearchResult := {
  id : Z;
  name : string;
  email : string;
  role : string;
  description : option string;
  skills : option (list string);
  profile_picture : option string;
  team : option string;
  similarity_score : num
}.

(** ** Sorting: a stable insertion sort stands for [ORDER BY] and for
    [Array.prototype.sort] *)

Section Sort.
Context {A : Type} (before : A -> A -> bool).

Fixpoint insert_by (x : A) (l : list A) : list A :=
  match l with
  | [] => [x]
  | y :: l' => if before x y then x :: l else y :: insert_by x l'
  end.

Fixpoint sort_by (l : list A) : list A :=
  match l with
  | [] => []
  | x :: l' => insert_by x (sort_by l')
  end.
End Sort.

(** ** PostgreSQL *)

Module Pg.

(** [LIMIT n]: a negative count is an error, otherwise the first [n] rows. *)
Definition limit {A : Type} (n : Z) (rows : list A) : string + list A :=
  if n <? 0 then inl "LIMIT must not be negative"
  else inr (firstn (Z.to_nat n) rows).

(** [LEFT JOIN teams t ON m.team_id = t.id], projected on [t.name]. *)
Definition team_name (teams : list team_row) (team_id : option Z) : option string :=
  match team_id with
  | None => None
  | Some i =>
      match find (fun t => t_id t =? i) teams with
      | Some t => Some (t_name t)
      | None => None
      end
  end.

(** An argument of a function call: left out, NULL, or a value. *)
Inductive arg (A : Type) :=
| left_out
| null
| given (a : A).
Arguments left_out {A}.
Arguments null {A}.
Arguments given {A} a.

(** [1 - d], [x >= t] and [x <= y] on [float8]: NaN is equal to itself and
    greater than every number. *)
Definition one_minus (d : num) : num :=
  match d with
  | Fin x => Fin (1 - x)
  | NaN => NaN
  end.

Definition ge (x : num) (t : Q) : bool :=
  match x with
  | Fin s => Qle_bool t s
  | NaN => true
  end.

Definition le (x y : num) : bool :=
  match x, y with
  | Fin a, Fin b => Qle_bool a b
  | _, NaN => true
  | NaN, Fin _ => false
  end.

Section MatchMembers.
(** pgvector's cosine distance operator [<=>]. *)
Variable cosine_distance : vector -> vector -> num.
(** The rows the scan of [members] visits for a query vector: every row in
    a sequential scan, the rows of the probed lists in a scan of the
    ivfflat index. *)
Variable visits : vector -> member_row -> bool.

Definition default_match_count : Z := 10.
Definition default_similarity_threshold : Q := 1 # 10.

(** [FROM members m LEFT JOIN teams t .. WHERE m.embedding IS NOT NULL
    AND 1 - (m.embedding <=> query_embedding) >= similarity_threshold],
    each kept member paired with its distance. *)
Definition where_clause (query_embedding : vector) (similarity_threshold : Q)
    (m : member_row) : option (member_row * num) :=
  match m_embedding m with
  | None => None
  | Some e =>
      let d := cosine_distance e query_embedding in
      if ge (one_minus d) similarity_threshold then Some (m, d) else None
  end.

Fixpoint filter_map {A B : Type} (f : A -> option B) (l : list A) : list B :=
  match l with
  | [] => []
  | x :: l' =>
      match f x with
      | Some y => y :: filter_map f l'
      | None => filter_map f l'
      end
  end.

Definition select_list (teams : list team_row) (md : member_row * num) : match_row :=
  let (m, d) := md in
  {| mr_id := m_id m;
     mr_name := m_name m;
     mr_email := m_email m;
     mr_role := m_role m;
     mr_description := m_description m;
     mr_skills := m_skills m;
     mr_profile_picture := m_profile_picture m;
     mr_team := team_name teams (m_team_id m);
     mr_match_score := Some (one_minus d);
     mr_distance := Some d |}.

(** [ORDER BY m.embedding <=> query_embedding]: ascending distance. *)
Definition order_by_distance (rows : list (member_row * num)) : list (member_row * num) :=
  sort_by (fun a b => le (snd a) (snd b)) rows.

(** The rows that pass the WHERE clause; a NULL threshold makes the
    comparison NULL for every row. *)
Definition qualifying (members : list member_row) (query_embedding : vector)
    (similarity_threshold : arg Q) : list (member_row * num) :=
  match similarity_threshold with
  | null => []
  | left_out =>
      filter_map (where_clause query_embedding default_similarity_threshold)
                 (List.filter (visits query_embedding) members)
  | given t =>
      filter_map (where_clause query_embedding t)
                 (List.filter (visits query_embedding) members)
  end.

(** [LIMIT match_count]: [LIMIT NULL] is no limit, an argument left out
    takes its [DEFAULT]. *)
Definition limit_count {A : Type} (match_count : arg Z) (rows : list A)
    : string + list A :=
  match match_count with
  | null => inr rows
  | left_out => limit default_match_count rows
  | given n => limit n rows
  end.

(** The SQL function [match_members]. *)
Definition match_members (members : list member_row) (teams : list team_row)
    (query_embedding : vector) (match_count : arg Z)
    (similarity_threshold : arg Q) : string + list match_row :=
  match limit_count match_count
          (order_by_distance
             (qualifying members query_embedding similarity_threshold)) with
  | inl e => inl e
  | inr rows => inr (map (select_list teams) rows)
  end.
End MatchMembers.

(** *** The PostgREST query of the text search *)

Inductive column := col_name | col_role | col_description | col_skills.

(** [col.ilike.%term%] and [col.cs.{term}]. *)
Inductive filter :=
| ilike (c : column) (term : string)
| cs (c : column) (term : string).

Definition text_column (c : column) (m : member_row) : option string :=
  match c with
  | col_name => Some (m_name m)
  | col_role => Some (m_role m)
  | col_description => m_description m
  | col_skills => None
  end.

Definition array_column (c : column) (m : member_row) : option (list string) :=
  match c with
  | col_skills => m_skills m
  | _ => None
  end.

(** The characters of a term: letters and digits stand for themselves,
    [%] and [*] for any text, [_] for any one character. *)
Definition plain_char (c : ascii) : bool :=
  let n := Js.code c in
  (((48 <=? n) && (n <=? 57)) || ((65 <=? n) && (n <=? 90))
   || ((97 <=? n) && (n <=? 122)))%N.

Definition wildcard_char (c : ascii) : bool :=
  let n := Js.code c in
  ((n =? 37) || (n =? 42) || (n =? 95))%N.

Fixpoint plain (term : string) : bool :=
  match term with
  | EmptyString => true
  | String c term' => plain_char c && plain term'
  end.

Fixpoint readable (term : string) : bool :=
  match term with
  | EmptyString => true
  | String c term' => (plain_char c || wildcard_char c) && readable term'
  end.

Definition filter_term (f : filter) : string :=
  match f with
  | ilike _ term | cs _ term => term
  end.

Inductive token :=
| lit (c : ascii)
| one
| any.

Fixpoint tokens (term : string) : list token :=
  match term with
  | EmptyString => []
  | String c term' =>
      (if ((Js.code c =? 37) || (Js.code c =? 42))%N then any
       else if (Js.code c =? 95)%N then one
       else lit c) :: tokens term'
  end.

(** [text LIKE pattern]. *)
Fixpoint like (pattern : list token) : string -> bool :=
  match pattern with
  | [] => fun text => match text with EmptyString => true | _ => false end
  | lit c :: rest =>
      fun text =>
        match text with
        | String c' text' => Ascii.eqb c' c && like rest text'
        | EmptyString => false
        end
  | one :: rest =>
      fun text =>
        match text with
        | String _ text' => like rest text'
        | EmptyString => false
        end
  | any :: rest =>
      fix skip (text : string) : bool :=
        like rest text
        || match text with
           | String _ text' => skip text'
           | EmptyString => false
           end
  end.

(** The array literal [{term}]: no element for the empty term, one NULL
    element for the word null, else the term as its one element. *)
Definition array_literal (term : string) : list (option string) :=
  if String.eqb term "" then []
  else if String.eqb (Js.toLowerCase term) "null" then [None]
  else [Some term].

(** [elems @> wanted]: every wanted element is equal to one of [elems]; a
    NULL is equal to nothing. *)
Definition contains (elems : list string) (wanted : list (option string)) : bool :=
  forallb (fun x => match x with
                    | Some t => existsb (String.eqb t) elems
                    | None => false
                    end) wanted.

(** [col ILIKE '%term%']: the pattern matches the column, letter case
    ignored; [col @> '{term}']: the array holds the elements of the
    literal. A NULL column satisfies neither. *)
Definition eval_filter (m : member_row) (f : filter) : bool :=
  match f with
  | ilike c term =>
      match text_column c m with
      | Some v => like (any :: tokens (Js.toLowerCase term) ++ [any])%list
                       (Js.toLowerCase v)
      | None => false
      end
  | cs c term =>
      match array_column c m with
      | Some elems => contains elems (array_literal term)
      | None => false
      end
  end.

Definition project (teams : list team_row) (m : member_row) : selected_row :=
  {| s_id := m_id m;
     s_name := m_name m;
     s_email := m_email m;
     s_role := m_role m;
     s_description := m_description m;
     s_skills := m_skills m;
     s_profile_picture := m_profile_picture m;
     s_team := team_name teams (m_team_id m) |}.

(** The rows an [or] selects. When a term holds a character other than
    letters, digits and wildcards, [other] says what the filter syntax
    makes of it: an error, or some selection. *)
Definition selection (other : list filter -> string + (member_row -> bool))
    (or_filter : option (list filter)) : string + (member_row -> bool) :=
  match or_filter with
  | None => inr (fun _ => true)
  | Some fs =>
      if forallb (fun f => readable (filter_term f)) fs
      then inr (fun m => existsb (eval_filter m) fs)
      else other fs
  end.

(** [from('members').select(..).or(filters).limit(n).order('name')]; with
    no [or] the query has no WHERE clause, with no [n] no LIMIT. *)
Definition select_members (other : list filter -> string + (member_row -> bool))
    (members : list member_row) (teams : list team_row)
    (or_filter : option (list filter)) (n : option Z) : string + list selected_row :=
  match selection other or_filter with
  | inl e => inl e
  | inr keep =>
      let ordered := sort_by (fun a b => String.leb (m_name a) (m_name b))
                             (List.filter keep members) in
      match match n with
            | Some n => limit n ordered
            | None => inr ordered
            end with
      | inl e => inl e
      | inr rows => inr (map (project teams) rows)
      end
  end.

End Pg.

(** ** Effects: invocation log and JavaScript exceptions *)

(** A thrown value: an [Error] instance, or any other object (the error
    object a supabase-js call hands back). *)
Inductive thrown :=
| JsError (message : string)
| JsObject (message : string).

Inductive event :=
| Call_performSemanticSearch (query : string) (limit : count)
| Call_performTextSearch (query : string) (limit : count)
| Backend_ai_run (text : string)
| Backend_rpc_match_members (query_embedding : vector) (match_count : count)
    (similarity_threshold : Q)
| Backend_select_members (or_filter : option (list Pg.filter)) (limit : count).

Inductive outcome (A : Type) :=
| Returned (a : A)
| Thrown (e : thrown).
Arguments Returned {A} a.
Arguments Thrown {A} e.

Definition Eff (A : Type) : Type := list event * outcome A.

Definition ret {A} (a : A) : Eff A := ([], Returned a).
Definition throw {A} (e : thrown) : Eff A := ([], Thrown e).
Definition emit (ev : event) : Eff unit := ([ev], Returned tt).

Definition bind {A B} (m : Eff A) (k : A -> Eff B) : Eff B :=
  match m with
  | (log, Returned a) => let (log', o) := k a in ((log ++ log')%list, o)
  | (log, Thrown e) => (log, Thrown e)
  end.

(** [try { m } catch (e) { h e }]. *)
Definition try_catch {A} (m : Eff A) (h : thrown -> Eff A) : Eff A :=
  match m with
  | (log, Returned a) => (log, Returned a)
  | (log, Thrown e) => let (log', o) := h e in ((log ++ log')%list, o)
  end.

Declare Scope eff_scope.
Delimit Scope eff_scope with eff.
Notation "x <- m ;; k" := (bind m (fun x => k))
  (at level 100, m at next level, right associativity) : eff_scope.
Notation "m ;;; k" := (bind m (fun _ => k))
  (at level 100, right associativity) : eff_scope.

(** ** What one invocation of the function sees *)

Record World := {
  SUPABASE_URL : option string;
  SUPABASE_SERVICE_ROLE_KEY : option string;
  (** [Supabase.ai.Session('gte-small').run]: [None] when it rejects. *)
  ai_run : string -> option vector;
  members : list member_row;
  teams : list team_row;
  (** The rows a scan of [members] in order of distance visits: all of
      them, or those the index [members_embedding_idx] leads to. *)
  visits : vector -> member_row -> bool;
  (** What the table query makes of an [or] with a term that holds other
      characters than letters, digits and wildcards, and of a [limit] that
      is no integer: an error, or a selection, or a row count or none. *)
  other_filter : list Pg.filter -> string + (member_row -> bool);
  other_limit : count -> string + option Z;
  (** The RPC or the table query comes back with [{ error }]. *)
  rpc_error : option string;
  select_error : option string;
  (** [new Date().toISOString()]. *)
  now : string
}.

(** ** Scoring of the text search *)

Definition searchTerms (query : string) : list string :=
  List.filter (fun term => (2 <? String.length term)%nat)
              (Js.split space (Js.toLowerCase query)).

Definition orConditions (terms : list string) : list Pg.filter :=
  flat_map (fun term =>
              [ Pg.ilike Pg.col_name term;
                Pg.ilike Pg.col_role term;
                Pg.ilike Pg.col_description term;
                Pg.cs Pg.col_skills term ]) terms.

(** [[name, role, description, ...(skills || [])].join(' ').toLowerCase()];
    [join] prints a null element as the empty string. *)
Definition memberText (member : selected_row) : string :=
  Js.toLowerCase
    (Js.join " "
       ([ s_name member; s_role member;
          match s_description member with Some d => d | None => "" end ]
        ++ match s_skills member with Some l => l | None => [] end)%list).

(** The [forEach] over the search terms, [score] being its accumulator. *)
Definition accumulate (text : string) (score : Q) (term : string) : Q :=
  if Js.includes text term then (score + (2 # 10))%Q else score.

Definition text_score (terms : list string) (member : selected_row) : Q :=
  Qmin (fold_left (accumulate (memberText member)) terms 0%Q) 1%Q.

Definition text_result (terms : list string) (member : selected_row) : SearchResult :=
  {| id := s_id member;
     name := s_name member;
     email := s_email member;
     role := s_role member;
     description := s_description member;
     skills := s_skills member;
     profile_picture := s_profile_picture member;
     team := s_team member;
     similarity_score := Fin (text_score terms member) |}.

(** [results.sort((a, b) => b.similarity_score - a.similarity_score)]: [a]
    stays before [b] unless the comparator is positive; a difference that
    is NaN counts as zero. *)
Definition by_score_desc (a b : SearchResult) : bool :=
  match similarity_score a, similarity_score b with
  | Fin x, Fin y => Qle_bool y x
  | _, _ => true
  end.

(** [x || 0] on a score that may be missing: NULL and zero give 0, the
    text NaN is kept. *)
Definition or_zero (x : option num) : num :=
  match x with
  | Some (Fin q) => if Qeq_bool q 0 then Fin 0 else Fin q
  | Some NaN => NaN
  | None => Fin 0
  end.

Definition semantic_result (match_ : match_row) : SearchResult :=
  {| id := mr_id match_;
     name := mr_name match_;
     email := mr_email match_;
     role := mr_role match_;
     description := mr_description match_;
     skills := Some match mr_skills match_ with Some l => l | None => [] end;
     profile_picture := mr_profile_picture match_;
     team := match mr_team match_ with
             | Some t => if Js.truthy t then Some t else None
             | None => None
             end;
     similarity_score := or_zero (mr_match_score match_) |}.

Section Functions.
Variable cosine_distance : vector -> vector -> num.
Variable w : World.

Local Open Scope eff_scope.

Definition generateEmbedding (text : string) : Eff vector :=
  try_catch
    (emit (Backend_ai_run text) ;;;
     match ai_run w text with
     | Some output => ret output
     | None => throw (JsObject "model run failed")
     end)
    (fun _ => throw (JsError "Failed to generate embedding")).

(** [match_count] as the database reads it from the JSON of the call:
    [JSON.stringify] prints NaN and the infinities as null, and a number
    that is no integer is no [int]. *)
Definition int_argument (match_count : count) : string + Pg.arg Z :=
  match match_count with
  | whole n => inr (Pg.given n)
  | part _ => inl "invalid input syntax for type integer"
  | infinite _ | not_a_number => inr Pg.null
  end.

(** [supabase.rpc('match_members', ..)]: [{ data, error }]. *)
Definition rpc_match_members (query_embedding : vector) (match_count : count)
    (similarity_threshold : Q) : Eff (string + list match_row) :=
  emit (Backend_rpc_match_members query_embedding match_count similarity_threshold) ;;;
  ret match rpc_error w with
      | Some e => inl e
      | None =>
          match int_argument match_count with
          | inl e => inl e
          | inr n => Pg.match_members cosine_distance (visits w) (members w) (teams w)
                       query_embedding n (Pg.given similarity_threshold)
          end
      end.

Definition performSemanticSearch (query : string) (limit : count) : Eff (list SearchResult) :=
  emit (Call_performSemanticSearch query limit) ;;;
  try_catch
    (queryEmbedding <- generateEmbedding query ;;
     response <- rpc_match_members queryEmbedding limit (1 # 10) ;;
     match response with
     | inl error => throw (JsObject error)
     | inr matches =>
         match matches with
         | [] => ret []
         | _ => ret (map semantic_result matches)
         end
     end)
    (fun error => throw error).

(** [.limit(limit)]: an integer is the row count of the query. *)
Definition row_limit (limit : count) : string + option Z :=
  match limit with
  | whole n => inr (Some n)
  | _ => other_limit w limit
  end.

Definition query_members (or_filter : option (list Pg.filter)) (limit : count)
    : Eff (string + list selected_row) :=
  emit (Backend_select_members or_filter limit) ;;;
  ret match select_error w with
      | Some e => inl e
      | None =>
          match row_limit limit with
          | inl e => inl e
          | inr n => Pg.select_members (other_filter w) (members w) (teams w) or_filter n
          end
      end.

Definition performTextSearch (query : string) (limit : count) : Eff (list SearchResult) :=
  emit (Call_performTextSearch query limit) ;;;
  try_catch
    (let terms := searchTerms query in
     let conditions := orConditions terms in
     let or_filter := match conditions with [] => None | _ => Some conditions end in
     response <- query_members or_filter limit ;;
     match response with
     | inl error => throw (JsObject error)
     | inr members =>
         ret (sort_by by_score_desc (map (text_result terms) members))
     end)
    (fun error => throw error).
End Functions.

(** ** HTTP requests and responses *)

(** The [query] and [limit] properties of the parsed body. *)
Inductive query_field :=
| query_absent
| query_not_string
| query_string (s : string).

(** [limit]: absent, null, a number literal (of an integer, or
    [limit_fraction] of any rational), or any other value (a string, a
    boolean, an array, an object), of which the handler sees whether it is
    truthy and the number [Math.min] makes of it. *)
Inductive limit_field :=
| limit_absent
| limit_null
| limit_number (n : Z)
| limit_fraction (q : Q)
| limit_other (truthy : bool) (to_number : count).

(** What [req.json()] yields: a rejection, the value [null], or a value
    whose properties can be read. *)
Inductive request_body :=
| invalid_json
| json_null
| json_value (query : query_field) (limit : limit_field).

Record Request := { method : string; body : request_body }.

Inductive json :=
| JBool (b : bool)
| JNumber (n : Z)
| JString (s : string)
| JResults (results : list SearchResult).

Record Response := {
  status : Z;
  headers : list (string * string);
  (** The serialised object, property by property; [None] for a null body. *)
  payload : option (list (string * json))
}.

Definition corsHeaders : list (string * string) :=
  [ ("Access-Control-Allow-Origin", "*");
    ("Access-Control-Allow-Headers", "authorization, x-client-info, apikey, content-type");
    ("Access-Control-Allow-Methods", "POST, OPTIONS") ].

Definition json_headers : list (string * string) :=
  (corsHeaders ++ [("Content-Type", "application/json")])%list.

Definition error_only (st : Z) (message : string) : Response :=
  {| status := st;
     headers := json_headers;
     payload := Some [("error", JString message)] |}.

(** The number [JSON.parse] reads an integer literal as: an infinity
    when the integer rounds beyond the largest double. *)
Definition double_limit : Z := 2 ^ 1024 - 2 ^ 970.

Definition parsed (n : Z) : count :=
  if double_limit <=? n then infinite false
  else if n <=? - double_limit then infinite true
  else n.

(** [requestBody.limit || 10]. *)
Definition limit_or_default (l : limit_field) : count :=
  match l with
  | limit_absent | limit_null => 10
  | limit_number n => if n =? 0 then 10 else parsed n
  | limit_fraction q => if Qeq_bool q 0 then 10 else number q
  | limit_other truthy to_number =>
      if truthy
      then match to_number with part q => number q | c => c end
      else 10
  end.

(** [Math.min(x, cap)]. *)
Definition Math_min (x : count) (cap : Z) : count :=
  match x with
  | whole n => Z.min n cap
  | part q => if Qle_bool q (inject_Z cap) then part q else cap
  | infinite true => infinite true
  | infinite false => cap
  | not_a_number => not_a_number
  end.

Definition env_set (v : option string) : bool :=
  match v with Some s => Js.truthy s | None => false end.

Section Handler.
Variable cosine_distance : vector -> vector -> num.
Variable w : World.

Local Open Scope eff_scope.

Definition success_response (query : string) (results : list SearchResult) : Response :=
  {| status := 200;
     headers := json_headers;
     payload := Some [ ("success", JBool true);
                       ("query", JString query);
                       ("results", JResults results);
                       ("count", JNumber (Z.of_nat (List.length results)));
                       ("timestamp", JString (now w)) ] |}.

Definition failure_response (error : thrown) : Response :=
  {| status := 500;
     headers := json_headers;
     payload := Some [ ("success", JBool false);
                       ("error", JString match error with
                                         | JsError message => message
                                         | JsObject _ => "An unexpected error occurred"
                                         end);
                       ("timestamp", JString (now w)) ] |}.

(** The two nested [try] blocks around the searches. *)
Definition search (query : string) (limit : count) : Eff (list SearchResult) :=
  try_catch (performSemanticSearch cosine_distance w query limit)
    (fun semanticError =>
       try_catch (performTextSearch w query limit)
         (fun textError =>
            throw (JsError "Search functionality is currently unavailable"))).

(** The body of the outer [try]. The message of the second validation
    error is written without the quotation marks it has around the word
    query. *)
Definition process (req : Request) : Eff Response :=
  if negb (env_set (SUPABASE_URL w)) || negb (env_set (SUPABASE_SERVICE_ROLE_KEY w))
  then throw (JsError "Missing Supabase environment variables")
  else
    match body req with
    | invalid_json => ret (error_only 400 "Invalid JSON in request body")
    | json_null =>
        throw (JsError "Cannot read properties of null (reading 'query')")
    | json_value (query_string s) l =>
        if negb (Js.truthy s)
        then ret (error_only 400 "Missing or invalid query field in request body")
        else
          let query := Js.trim s in
          let limit := Math_min (limit_or_default l) 50 in
          if (String.length query <? 3)%nat
          then ret (error_only 400 "Query must be at least 3 characters long")
          else
            results <- search query limit ;;
            ret (success_response query results)
    | json_value _ _ =>
        ret (error_only 400 "Missing or invalid query field in request body")
    end.

(** The function given to [Deno.serve]: the invocation log and the
    response. *)
Definition handler (req : Request) : list event * Response :=
  if String.eqb (method req) "OPTIONS"
  then ([], {| status := 200; headers := corsHeaders; payload := None |})
  else if negb (String.eqb (method req) "POST")
  then ([], error_only 405 "Method not allowed. Use POST.")
  else
    match process req with
    | (log, Returned response) => (log, response)
    | (log, Thrown error) => (log, failure_response error)
    end.
End Handler.

(** ** Readers of a run *)

(** The filter handed to [or], when the query has search terms. *)
Definition text_filter (query : string) : option (list Pg.filter) :=
  match orConditions (searchTerms query) with
  | [] => None
  | conditions => Some conditions
  end.

Definition keys (r : Response) : list string :=
  match payload r with
  | Some props => map fst props
  | None => []
  end.

Fixpoint property (k : string) (props : list (string * json)) : option json :=
  match props with
  | [] => None
  | (k', v) :: rest => if String.eqb k k' then Some v else property k rest
  end.

Definition response_results (r : Response) : option (list SearchResult) :=
  match payload r with
  | Some props =>
      match property "results" props with
      | Some (JResults rs) => Some rs
      | _ => None
      end
  | None => None
  end.

Definition response_count (r : Response) : option Z :=
  match payload r with
  | Some props =>
      match property "count" props with
      | Some (JNumber n) => Some n
      | _ => None
      end
  | None => None
  end.

Definition response_success (r : Response) : option json :=
  match payload r with
  | Some props => property "success" props
  | None => None
  end.

(** The query and limit the searches run with, for a request that gets as
    far as the searches. *)
Definition search_arguments (w : World) (req : Request) : option (string * count) :=
  if String.eqb (method req) "POST"
     && env_set (SUPABASE_URL w) && env_set (SUPABASE_SERVICE_ROLE_KEY w)
  then match body req with
       | json_value (query_string s) l =>
           if Js.truthy s && (3 <=? String.length (Js.trim s))%nat
           then Some (Js.trim s, Math_min (limit_or_default l) 50)
           else None
       | _ => None
       end
  else None.

Definition requested_limit (req : Request) : limit_field :=
  match body req with
  | json_value _ l => l
  | _ => limit_absent
  end.

(** A property of the serialised object. *)
Definition response_property (k : string) (r : Response) : option json :=
  match payload r with
  | Some props => property k props
  | None => None
  end.

(** A body whose query passes the validation of the handler. *)
Definition valid_query (b : request_body) : bool :=
  match b with
  | json_value (query_string s) _ =>
      Js.truthy s && (3 <=? String.length (Js.trim s))%nat
  | _ => false
  end.

(** Two scores that are the same number, or NaN both. *)
Definition same_score (x y : num) : Prop :=
  match x, y with
  | Fin a, Fin b => (a == b)%Q
  | NaN, NaN => True
  | _, _ => False
  end.

(** A result whose score is the number [score]. *)
Definition has_score (score : Q) (r : SearchResult) : bool :=
  match similarity_score r with
  | Fin q => Qeq_bool q score
  | NaN => false
  end.

(** A score that is a number of the closed interval [0, 1]. *)
Definition in_unit_interval (x : num) : Prop :=
  match x with
  | Fin q => (0 <= q <= 1)%Q
  | NaN => False
  end.

(** [x <= y] on scores: both are numbers, in that order. *)
Definition score_le (x y : num) : Prop :=
  match x, y with
  | Fin a, Fin b => (a <= b)%Q
  | _, _ => False
  end.

(** Non-increasing similarity scores, read by positions. *)
Definition descending (results : list SearchResult) : Prop :=
  forall i j a b, (i < j)%nat ->
    nth_error results i = Some a -> nth_error results j = Some b ->
    score_le (similarity_score b) (similarity_score a).

(** The row limit an event carries. *)
Definition event_limit (ev : event) : option count :=
  match ev with
  | Call_performSemanticSearch _ l | Call_performTextSearch _ l => Some l
  | Backend_rpc_match_members _ n _ => Some n
  | Backend_select_members _ l => Some l
  | Backend_ai_run _ => None
  end.


(** ** The text matcher as the specification words it

    These definitions follow the specification, not the source: the query
    split on white space, and a substring match on each of name, role,
    description and skills. They are compared with the source's
    [searchTerms] and [orConditions]. *)

Module Spec.

Fixpoint split_whitespace (s : string) : list string :=
  match s with
  | EmptyString => [EmptyString]
  | String c s' =>
      if Js.is_space c then EmptyString :: split_whitespace s'
      else match split_whitespace s' with
           | [] => [String c EmptyString]
           | piece :: rest => String c piece :: rest
           end
  end.

Definition terms (query : string) : list string :=
  List.filter (fun term => (2 <? String.length term)%nat)
              (split_whitespace (Js.toLowerCase query)).




End Spec.

(** Whether a string holds a character. *)
Fixpoint has_char (c : ascii) (s : string) : bool :=
  match s with
  | EmptyString => false
  | String c' s' => Ascii.eqb c' c || has_char c s'
  end.

(** A member a term of letters and digits selects: the term is found in
    the name, the role or the description, letter case ignored, or is an
    element of the skills and not the word null. *)
Definition matches_term (m : member_row) (term : string) : Prop :=
  Js.includes (Js.toLowerCase (m_name m)) (Js.toLowerCase term) = true \/
  Js.includes (Js.toLowerCase (m_role m)) (Js.toLowerCase term) = true \/
  (exists d, m_description m = Some d /\
             Js.includes (Js.toLowerCase d) (Js.toLowerCase term) = true) \/
  (exists l, m_skills m = Some l /\ In term l /\ Js.toLowerCase term <> "null").



(** ** The score in IEEE binary64

    The same accumulator on the numbers JavaScript computes with, to see
    what rounding does to the exact model above. *)

Module Binary64.

Definition prec : Z := 53.
Definition emax : Z := 1024.

(** The doubles nearest to 0.2 and equal to 1.0. *)
Definition point_two : spec_float := S754_finite false 7205759403792794 (-55).
Definition one : spec_float := S754_finite false 4503599627370496 (-52).
Definition zero : spec_float := S754_zero false.

Definition of_nat (n : nat) : spec_float :=
  binary_normalize prec emax (Z.of_nat n) 0 false.

(** [score += 0.2], [n] times. *)
Fixpoint accumulate_times (n : nat) (score : spec_float) : spec_float :=
  match n with
  | O => score
  | S n' => accumulate_times n' (SFadd prec emax score point_two)
  end.

(** [Math.min(score, 1.0)]. *)
Definition cap (score : spec_float) : spec_float :=
  if SFltb score one then score else one.

Definition text_score (matched : nat) : spec_float :=
  cap (accumulate_times matched zero).

Definition claimed_score (matched : nat) : spec_float :=
  cap (SFmul prec emax point_two (of_nat matched)).

End Binary64.

(** ** A concrete deployment, for examples *)

Module Demo.

Definition dot (u v : vector) : Q :=
  fold_left Qplus (map (fun p => (fst p * snd p)%Q) (combine u v)) 0%Q.

Definition zero_norm (u : vector) : bool := forallb (fun x => Qeq_bool x 0) u.

(** Cosine distance of vectors of norm 1 or 0: one minus the cosine, kept
    in range, and NaN, the quotient of zero by zero, where a norm is 0. *)
Definition distance (u v : vector) : num :=
  if zero_norm u || zero_norm v then NaN
  else Fin (Qred (Qmax 0 (Qmin 2 (1 - dot u v)))).

Definition ada : member_row :=
  {| m_id := 1; m_name := "Ada Park"; m_email := "ada@example.com";
     m_role := "React developer"; m_description := Some "Builds the web client";
     m_skills := Some ["typescript"; "css"]; m_profile_picture := None;
     m_team_id := Some 7; m_embedding := Some [1%Q; 0%Q] |}.

Definition bo : member_row :=
  {| m_id := 2; m_name := "Bo Lind"; m_email := "bo@example.com";
     m_role := "Designer"; m_description := None;
     m_skills := Some ["Figma"]; m_profile_picture := None;
     m_team_id := None; m_embedding := Some [(3 # 5)%Q; (4 # 5)%Q] |}.

Definition cy : member_row :=
  {| m_id := 3; m_name := "Cy Moss"; m_email := "cy@example.com";
     m_role := "Backend developer"; m_description := Some "Likes React too";
     m_skills := None; m_profile_picture := None;
     m_team_id := Some 7; m_embedding := None |}.

Definition world : World :=
  {| SUPABASE_URL := Some "https://project.supabase.co";
     SUPABASE_SERVICE_ROLE_KEY := Some "service-role-key";
     ai_run := fun _ => Some [(4 # 5)%Q; (3 # 5)%Q];
     members := [cy; bo; ada];
     teams := [ {| t_id := 7; t_name := "Web" |} ];
     visits := fun _ _ => true;
     other_filter := fun _ => inl "failed to parse logic tree";
     other_limit := fun _ => inr None;
     rpc_error := None;
     select_error := None;
     now := "2025-06-26T11:01:38.000Z" |}.

(** The same deployment with the model unavailable, with both backends
    failing, and with the environment not configured. *)
Definition world_no_model : World :=
  {| SUPABASE_URL := SUPABASE_URL world;
     SUPABASE_SERVICE_ROLE_KEY := SUPABASE_SERVICE_ROLE_KEY world;
     ai_run := fun _ => None;
     members := members world; teams := teams world;
     visits := visits world; other_filter := other_filter world;
     other_limit := other_limit world;
     rpc_error := None; select_error := None; now := now world |}.

Definition world_down : World :=
  {| SUPABASE_URL := SUPABASE_URL world;
     SUPABASE_SERVICE_ROLE_KEY := SUPABASE_SERVICE_ROLE_KEY world;
     ai_run := ai_run world;
     members := members world; teams := teams world;
     visits := visits world; other_filter := other_filter world;
     other_limit := other_limit world;
     rpc_error := Some "connection refused";
     select_error := Some "connection refused"; now := now world |}.

Definition world_no_env : World :=
  {| SUPABASE_URL := None;
     SUPABASE_SERVICE_ROLE_KEY := SUPABASE_SERVICE_ROLE_KEY world;
     ai_run := ai_run world;
     members := members world; teams := teams world;
     visits := visits world; other_filter := other_filter world;
     other_limit := other_limit world;
     rpc_error := None; select_error := None; now := now world |}.

Definition post (query : string) (l : limit_field) : Request :=
  {| method := "POST"; body := json_value (query_string query) l |}.


Definition get (query : string) : Request :=
  {| method := "GET"; body := json_value (query_string query) limit_absent |}.

End Demo.

(** A deployment whose only member has no embedding yet. *)
Module DemoSparse.

Definition world : World :=
  {| SUPABASE_URL := SUPABASE_URL Demo.world;
     SUPABASE_SERVICE_ROLE_KEY := SUPABASE_SERVICE_ROLE_KEY Demo.world;
     ai_run := ai_run Demo.world;
     members := [Demo.cy];
     teams := teams Demo.world;
     visits := visits Demo.world; other_filter := other_filter Demo.world;
     other_limit := other_limit Demo.world;
     rpc_error := None; select_error := None; now := now Demo.world |}.

End DemoSparse.

(** A deployment with embeddings of the column's 384 dimensions, read in
    a sequential scan: one member near the query, one whose stored
    embedding is the zero vector. *)
Module DemoZero.

Definition dimension : nat := 384.

Definition zero_vector : vector := repeat 0%Q dimension.
Definition first_axis : vector := 1%Q :: repeat 0%Q (dimension - 1).
Definition query_vector : vector := (3 # 5)%Q :: (4 # 5)%Q :: repeat 0%Q (dimension - 2).

Definition ada : member_row :=
  {| m_id := 1; m_name := "Ada Park"; m_email := "ada@example.com";
     m_role := "React developer"; m_description := Some "Builds the web client";
     m_skills := Some ["typescript"; "css"]; m_profile_picture := None;
     m_team_id := None; m_embedding := Some first_axis |}.

Definition zed : member_row :=
  {| m_id := 2; m_name := "Zed Roe"; m_email := "zed@example.com";
     m_role := "Gardener"; m_description := None;
     m_skills := None; m_profile_picture := None;
     m_team_id := None; m_embedding := Some zero_vector |}.

Definition world : World :=
  {| SUPABASE_URL := SUPABASE_URL Demo.world;
     SUPABASE_SERVICE_ROLE_KEY := SUPABASE_SERVICE_ROLE_KEY Demo.world;
     ai_run := fun _ => Some query_vector;
     members := [zed; ada];
     teams := [];
     visits := fun _ _ => true; other_filter := other_filter Demo.world;
     other_limit := other_limit Demo.world;
     rpc_error := None; select_error := None; now := now Demo.world |}.

End DemoZero.

(** A deployment of 51 members, each with the embedding of the query. *)
Module DemoCrowd.

Definition member (i : nat) : member_row :=
  {| m_id := Z.of_nat i; m_name := "Member"; m_email := "member@example.com";
     m_role := "Engineer"; m_description := None;
     m_skills := None; m_profile_picture := None;
     m_team_id := None; m_embedding := Some DemoZero.first_axis |}.

Definition world : World :=
  {| SUPABASE_URL := SUPABASE_URL Demo.world;
     SUPABASE_SERVICE_ROLE_KEY := SUPABASE_SERVICE_ROLE_KEY Demo.world;
     ai_run := fun _ => Some DemoZero.first_axis;
     members := map member (seq 1 51);
     teams := [];
     visits := fun _ _ => true; other_filter := other_filter Demo.world;
     other_limit := other_limit Demo.world;
     rpc_error := None; select_error := None; now := now Demo.world |}.

End DemoCrowd.

(** A string that does not begin with white space. *)
Definition starts_clean (s : string) : Prop :=
  match s with
  | EmptyString => True
  | String c _ => Js.is_space c = false
  end.

(** ** The search page: [performSearch]

    The page posts to the edge function and keeps four pieces of state.
    [fetch] either rejects (no connection) or delivers the response of
    [handler]; nothing stands between the page and the function. *)

Module Page.

Record SearchState := {
  searchResults : list SearchResult;
  isSearching : bool;
  searchError : option string;
  hasSearched : bool
}.

(** A number inside a template literal. *)
Definition decimal (n : Z) : string := NilZero.string_of_int (Z.to_int n).

(** [response.ok]. *)
Definition ok (r : Response) : bool := (200 <=? status r) && (status r <=? 299).

Definition truthy (v : option json) : bool :=
  match v with
  | Some (JBool b) => b
  | Some (JNumber n) => negb (n =? 0)
  | Some (JString s) => Js.truthy s
  | Some (JResults _) => true
  | None => false
  end.

Section PerformSearch.
Variable cosine_distance : vector -> vector -> num.
Variable w : World.
(** [Some message] when [fetch] rejects. *)
Variable offline : option string.

Local Open Scope eff_scope.

Definition fetch (req : Request) : Eff Response :=
  match offline with
  | Some message => throw (JsError message)
  | None => let (log, response) := handler cosine_distance w req in (log, Returned response)
  end.

(** The body of the [try]: the results to show, or what is thrown. *)
Definition request_results (query : string) : Eff (list SearchResult) :=
  response <- fetch {| method := "POST";
                       body := json_value (query_string (Js.trim query))
                                          (limit_number 10) |} ;;
  if negb (ok response)
  then throw (JsError ("Search failed: " ++ decimal (status response)))
  else
    match payload response with
    | None => throw (JsError "Unexpected end of JSON input")
    | Some data =>
        match truthy (property "success" data), property "results" data with
        | true, Some (JResults results) => ret results
        | _, _ =>
            throw (JsError match property "error" data with
                           | Some (JString e) => if Js.truthy e then e else "Search failed"
                           | _ => "Search failed"
                           end)
        end
    end.

(** [performSearch(query)]: the log of the edge function and the state
    once the promise settles. *)
Definition performSearch (query : string) (st : SearchState) : list event * SearchState :=
  if (String.length query <? 3)%nat
  then ([], {| searchResults := [];
               isSearching := isSearching st;
               searchError := searchError st;
               hasSearched := false |})
  else
    match request_results query with
    | (log, Returned results) =>
        (log, {| searchResults := results;
                 isSearching := false;
                 searchError := None;
                 hasSearched := true |})
    | (log, Thrown error) =>
        (log, {| searchResults := [];
                 isSearching := false;
                 searchError := Some match error with
                                     | JsError message => message
                                     | JsObject _ => "Search failed. Please try again."
                                     end;
                 hasSearched := true |})
    end.
End PerformSearch.

End Page.

(** The request [performSearch] sends, and a page that has not searched. *)
Definition page_request (query : string) : Request :=
  {| method := "POST";
     body := json_value (query_string (Js.trim query)) (limit_number 10) |}.

Definition fresh_page : Page.SearchState :=
  {| Page.searchResults := []; Page.isSearching := false;
     Page.searchError := None; Page.hasSearched := false |}.

(** ** The search page: choosing and uploading a profile picture

    The storage bucket is a list of objects by path, the database the
    [members] table; an upload or an update that comes back with an error
    has stored nothing. *)

Module Upload.

Record File := { file_name : string; file_type : string; file_size : Z }.

Record UploadState := {
  selectedFile : option File;
  previewUrl : option string;
  uploadError : option string;
  isUploading : bool;
  uploadSuccess : bool
}.

Definition allowedTypes : list string := ["image/jpeg"; "image/jpg"; "image/png"].
Definition maxSize : Z := 5 * 1024 * 1024.

Definition with_error (st : UploadState) (message : string) : UploadState :=
  {| selectedFile := selectedFile st;
     previewUrl := previewUrl st;
     uploadError := Some message;
     isUploading := isUploading st;
     uploadSuccess := uploadSuccess st |}.

(** [handleFileSelect]: [picked] is [e.target.files?.[0]]. *)
Definition handleFileSelect (createObjectURL : File -> string)
    (picked : option File) (st : UploadState) : UploadState :=
  match picked with
  | None => st
  | Some file =>
      if negb (existsb (String.eqb (file_type file)) allowedTypes)
      then with_error st "Please select a valid image file (.jpg, .jpeg, or .png)"
      else if maxSize <? file_size file
      then with_error st "File size must be less than 5MB"
      else {| selectedFile := Some file;
              previewUrl := Some (createObjectURL file);
              uploadError := None;
              isUploading := isUploading st;
              uploadSuccess := false |}
  end.

Record Backend := {
  objects : list (string * File);
  table : list member_row
}.

(** What the services answer during one upload. *)
Record Services := {
  date_now : Z;
  upload_error : option thrown;
  publicUrl : string -> option string;
  update_error : option thrown
}.

(** [selectedFile.name.split('.').pop()]. *)
Definition fileExtension (file : File) : string :=
  last (Js.split "."%char (file_name file)) "".

Definition filePath (user_id : Z) (now : Z) (file : File) : string :=
  "profiles/" ++ Page.decimal user_id ++ "-" ++ Page.decimal now ++ "."
  ++ fileExtension file.

(** [upload(path, file, { upsert: true })]. *)
Definition upsert (path : string) (file : File) (objs : list (string * File))
    : list (string * File) :=
  (path, file) :: List.filter (fun o => negb (String.eqb (fst o) path)) objs.

Definition set_profile_picture (m : member_row) (url : string) : member_row :=
  {| m_id := m_id m;
     m_name := m_name m;
     m_email := m_email m;
     m_role := m_role m;
     m_description := m_description m;
     m_skills := m_skills m;
     m_profile_picture := Some url;
     m_team_id := m_team_id m;
     m_embedding := m_embedding m |}.

(** [update({ profile_picture: url }).eq('id', user.id)], as the statement
    reads; a trigger of the table that raises is an [update_error]. *)
Definition update_profile_picture (user_id : Z) (url : string) (tbl : list member_row)
    : list member_row :=
  map (fun m => if m_id m =? user_id then set_profile_picture m url else m) tbl.

(** The three steps inside the [try]: the backend they leave and what
    they throw, if anything. *)
Definition upload_steps (sv : Services) (user_id : Z) (file : File) (b : Backend)
    : Backend * option thrown :=
  let path := filePath user_id (date_now sv) file in
  match upload_error sv with
  | Some e => (b, Some e)
  | None =>
      let stored := {| objects := upsert path file (objects b); table := table b |} in
      match publicUrl sv path with
      | None => (stored, Some (JsError "Failed to get public URL"))
      | Some url =>
          if negb (Js.truthy url)
          then (stored, Some (JsError "Failed to get public URL"))
          else match update_error sv with
               | Some e => (stored, Some e)
               | None =>
                   ({| objects := objects stored;
                       table := update_profile_picture user_id url (table b) |}, None)
               end
      end
  end.

(** [handleFileUpload], [user] being the signed-in user's id. *)
Definition handleFileUpload (sv : Services) (user : option Z)
    (st : UploadState) (b : Backend) : UploadState * Backend :=
  match selectedFile st, user with
  | Some file, Some user_id =>
      match upload_steps sv user_id file b with
      | (b', None) =>
          ({| selectedFile := None;
              previewUrl := None;
              uploadError := None;
              isUploading := false;
              uploadSuccess := true |}, b')
      | (b', Some error) =>
          ({| selectedFile := selectedFile st;
              previewUrl := previewUrl st;
              uploadError := Some match error with
                                  | JsError message => message
                                  | JsObject _ => "Upload failed. Please try again."
                                  end;
              isUploading := false;
              uploadSuccess := uploadSuccess st |}, b')
      end
  | _, _ => (st, b)
  end.

End Upload.

(** ** The member page: editing the skills *)

Module Skills.

(** [handleAddSkill]: the edited skills and the input field afterwards. *)
Definition handleAddSkill (newSkill : string) (editSkills : list string)
    : list string * string :=
  if Js.truthy (Js.trim newSkill)
     && negb (existsb (String.eqb (Js.trim newSkill)) editSkills)
  then ((editSkills ++ [Js.trim newSkill])%list, "")
  else (editSkills, newSkill).

(** [handleRemoveSkill]. *)
Definition handleRemoveSkill (skillToRemove : string) (editSkills : list string)
    : list string :=
  List.filter (fun skill => negb (String.eqb skill skillToRemove)) editSkills.

(** A skill list as the page keeps it: no skill twice, none blank, none
    with white space around it. *)
Definition tidy (editSkills : list string) : Prop :=
  NoDup editSkills /\
  forall skill, In skill editSkills -> Js.trim skill = skill /\ skill <> "".

End Skills.

(** A file [handleFileSelect] accepts. *)
Definition acceptable (file : Upload.File) : bool :=
  existsb (String.eqb (Upload.file_type file)) Upload.allowedTypes
  && (Upload.file_size file <=? Upload.maxSize).

Module DemoUpload.

Definition photo : Upload.File :=
  {| Upload.file_name := "me.at.work.png"; Upload.file_type := "image/png";
     Upload.file_size := 5 * 1024 * 1024 |}.

Definition notes : Upload.File :=
  {| Upload.file_name := "notes"; Upload.file_type := "text/plain";
     Upload.file_size := 12 |}.

Definition blob_url (file : Upload.File) : string := "blob:" ++ Upload.file_name file.

Definition idle : Upload.UploadState :=
  {| Upload.selectedFile := None; Upload.previewUrl := None;
     Upload.uploadError := None; Upload.isUploading := false;
     Upload.uploadSuccess := false |}.

Definition backend : Upload.Backend :=
  {| Upload.objects := []; Upload.table := [Demo.cy; Demo.ada] |}.

(** The bucket stores, the database refuses the update. *)
Definition services : Upload.Services :=
  {| Upload.date_now := 1750935698000;
     Upload.upload_error := None;
     Upload.publicUrl := fun path => Some ("https://cdn.example.com/" ++ path);
     Upload.update_error := Some (JsObject "permission denied for table members") |}.

End DemoUpload.

(** ** The member page: [transformStandupData] *)

Module Standups.

Record Task := { task_id : string; text : string; completed : bool }.

(** A row of [standups]; [content], [content_stat], [member_id] and
    [created_at] may be missing. *)
Record StandupRow := {
  standup_id : Z;
  content : option (list string);
  content_stat : option (list bool);
  member_id : option Z;
  created_at : option string
}.

Record Transformed := {
  tasks : list Task;
  blockers : string;
  memberId : string;
  memberName : string;
  timestamp : string
}.

Fixpoint skip (n : nat) (s : string) : string :=
  match n, s with
  | S n', String _ s' => skip n' s'
  | _, _ => s
  end.

(** [item.toLowerCase().includes('blocker') ||
    item.toLowerCase().includes('challenge')]. *)
Definition mentions_blocker (item : string) : bool :=
  Js.includes (Js.toLowerCase item) "blocker"
  || Js.includes (Js.toLowerCase item) "challenge".

(** [item.replace(/^blockers?:\s*/i, '')]: the label, with the white space
    after it, is cut off the front when the item begins with it. *)
Definition strip_label (item : string) : string :=
  let low := Js.toLowerCase item in
  if String.prefix "blockers:" low then Js.trimStart (skip 9 item)
  else if String.prefix "blocker:" low then Js.trimStart (skip 8 item)
  else item.

Definition task_of (sid : Z) (stat : list bool) (index : nat) (item : string) : Task :=
  {| task_id := "task-" ++ Page.decimal sid ++ "-" ++ Page.decimal (Z.of_nat index);
     text := Js.trim item;
     completed := nth index stat false |}.

(** The callback of [content.forEach], on the tasks and the blockers so
    far. *)
Definition each (sid : Z) (stat : list bool) (state : list Task * string)
    (entry : nat * string) : list Task * string :=
  let (tasks, blockers) := state in
  let (index, item) := entry in
  if mentions_blocker item then (tasks, Js.trim (strip_label item))
  else ((tasks ++ [task_of sid stat index item])%list, blockers).

Definition indexed (items : list string) : list (nat * string) :=
  combine (seq 0 (List.length items)) items.

(** [member] is the name of the member the page shows, when it is loaded;
    [now] is [new Date().toISOString()]. *)
Definition transformStandupData (member : option string) (now : string)
    (standup : StandupRow) : Transformed :=
  let content := match content standup with Some c => c | None => [] end in
  let contentStat := match content_stat standup with Some c => c | None => [] end in
  let (tasks, blockers) :=
    fold_left (each (standup_id standup) contentStat) (indexed content) ([], "") in
  {| tasks := tasks;
     blockers := blockers;
     memberId := match member_id standup with
                 | Some i => Page.decimal i
                 | None => ""
                 end;
     memberName := match member with
                   | Some n => if Js.truthy n then n else "Unknown Member"
                   | None => "Unknown Member"
                   end;
     timestamp := match created_at standup with
                  | Some t => if Js.truthy t then t else now
                  | None => now
                  end |}.

End Standups.

Module DemoStandups.

Definition row : Standups.StandupRow :=
  {| Standups.standup_id := 12;
     Standups.content := Some ["Blockers: none"; " Review search page";
                               "Blocker:  waiting for keys "; "Ship it"];
     Standups.content_stat := Some [false; true];
     Standups.member_id := Some 3;
     Standups.created_at := None |}.

End DemoStandups.

(** The blockers text an item leaves. *)
Definition blockers_of (item : string) : string :=
  Js.trim (Standups.strip_label item).

(** The content and the completion marks of a row, absent ones empty. *)
Definition content_of (standup : Standups.StandupRow) : list string :=
  match Standups.content standup with Some c => c | None => [] end.

Definition marks_of (standup : Standups.StandupRow) : list bool :=
  match Standups.content_stat standup with Some c => c | None => [] end.

(** * Properties *)

(** ** The monad *)

Lemma bind_returned {A B} (m : Eff A) (k : A -> Eff B) log b :
  bind m k = (log, Returned b) ->
  exists l1 a l2, m = (l1, Returned a) /\ k a = (l2, Returned b) /\ log = (l1 ++ l2)%list.
Proof.
  destruct m as [l1 [a | e]]; simpl.
  - destruct (k a) as [l2 o] eqn:K. intros [= <- ->]. now exists l1, a, l2.
  - discriminate.
Qed.

Lemma try_catch_returned {A} (m : Eff A) (h : thrown -> Eff A) log a :
  try_catch m h = (log, Returned a) ->
  m = (log, Returned a) \/
  exists l1 e l2, m = (l1, Thrown e) /\ h e = (l2, Returned a) /\ log = (l1 ++ l2)%list.
Proof.
  destruct m as [l1 [a' | e]]; simpl.
  - intros [= <- <-]. now left.
  - destruct (h e) as [l2 o] eqn:H. intros [= <- ->]. right. now exists l1, e, l2.
Qed.

Lemma try_catch_rethrow {A} (m : Eff A) : try_catch m (fun e => throw e) = m.
Proof.
  destruct m as [log [a | e]]; simpl; [reflexivity|].
  now rewrite app_nil_r.
Qed.

(** ** Sorting *)

Section SortFacts.
Context {A : Type} (before : A -> A -> bool).

Lemma insert_by_perm x l : Permutation (x :: l) (insert_by before x l).
Proof.
  induction l as [|y l IH]; simpl; [constructor; constructor|].
  destruct (before x y); [apply Permutation_refl|].
  eapply perm_trans; [apply perm_swap|]. now constructor.
Qed.

Lemma sort_by_perm l : Permutation l (sort_by before l).
Proof.
  induction l as [|x l IH]; simpl; [constructor|].
  eapply perm_trans; [|apply insert_by_perm]. now constructor.
Qed.

Lemma sort_by_length l : List.length (sort_by before l) = List.length l.
Proof. symmetry. apply Permutation_length, sort_by_perm. Qed.

Lemma sort_by_In x l : In x (sort_by before l) <-> In x l.
Proof.
  split; intros H.
  - eapply Permutation_in; [apply Permutation_sym, sort_by_perm|exact H].
  - eapply Permutation_in; [apply sort_by_perm|exact H].
Qed.

(** Where [before] is total and transitive on the elements of the list,
    the output is ordered: every element stands [before] every later
    one. *)
Variable P : A -> Prop.
Variable R : A -> A -> Prop.
Hypothesis before_R : forall x y, P x -> P y -> before x y = true -> R x y.
Hypothesis R_total : forall x y, P x -> P y -> before x y = false -> R y x.
Hypothesis R_trans : forall x y z, P x -> P y -> P z -> R x y -> R y z -> R x z.

Lemma insert_by_sorted x l :
  P x -> Forall P l ->
  StronglySorted R l -> StronglySorted R (insert_by before x l).
Proof.
  intros Px Pl. induction 1 as [|y l Hs IH Hy]; simpl.
  - repeat constructor.
  - inversion Pl as [|y' l' Py Pl' E']; subst.
    destruct (before x y) eqn:E.
    + constructor; [now constructor|].
      constructor; [now apply before_R|].
      rewrite Forall_forall in *. intros z Hz.
      apply (R_trans x y z); auto.
    + constructor; [now apply IH|].
      rewrite Forall_forall in *. intros z Hz.
      apply (Permutation_in _ (Permutation_sym (insert_by_perm x l))) in Hz.
      destruct Hz as [<- | Hz]; [now apply R_total|now apply Hy].
Qed.

Lemma sort_by_sorted l : Forall P l -> StronglySorted R (sort_by before l).
Proof.
  induction l as [|x l IH]; simpl; [constructor|].
  intros Pl. inversion Pl as [|x' l' Px Pl' E']; subst.
  apply insert_by_sorted; auto.
  apply (Permutation_Forall (sort_by_perm l)), Pl'.
Qed.
End SortFacts.

Lemma In_firstn {A} (x : A) n l : In x (firstn n l) -> In x l.
Proof.
  revert n. induction l as [|y l IH]; intros [|n]; simpl; try tauto.
  intros [-> | H]; [now left|right; eauto].
Qed.

Lemma StronglySorted_firstn {A} (R : A -> A -> Prop) n l :
  StronglySorted R l -> StronglySorted R (firstn n l).
Proof.
  intros H. revert n. induction H as [|x l Hs IH Hx]; intros [|n]; simpl;
    try constructor; [apply IH|].
  rewrite Forall_forall in *. intros y Hy. apply Hx.
  now apply (In_firstn y n l).
Qed.

Lemma StronglySorted_map {A B} (R : A -> A -> Prop) (S : B -> B -> Prop) (f : A -> B) l :
  (forall x y, R x y -> S (f x) (f y)) ->
  StronglySorted R l -> StronglySorted S (map f l).
Proof.
  intros HRS. induction 1 as [|x l Hs IH Hx]; simpl; constructor; [exact IH|].
  rewrite Forall_forall in *. intros y Hy.
  apply in_map_iff in Hy as [z [<- Hz]]. now apply HRS, Hx.
Qed.

(** An ordered list read by positions. *)
Lemma StronglySorted_nth {A} (R : A -> A -> Prop) l :
  StronglySorted R l ->
  forall i j a b, (i < j)%nat ->
    nth_error l i = Some a -> nth_error l j = Some b -> R a b.
Proof.
  induction 1 as [|x l Hs IH Hx]; intros i j a b Hij Hi Hj.
  - destruct i; discriminate.
  - destruct j as [|j]; [lia|]. simpl in Hj.
    destruct i as [|i]; simpl in Hi.
    + injection Hi as <-. rewrite Forall_forall in Hx.
      apply Hx. eapply nth_error_In, Hj.
    + eapply (IH i j); eauto. lia.
Qed.

(** ** The database functions *)

Lemma limit_rows {A} (n : Z) (rows out : list A) :
  Pg.limit n rows = inr out -> 0 <= n /\ out = firstn (Z.to_nat n) rows.
Proof.
  unfold Pg.limit. destruct (Z.ltb_spec n 0); [discriminate|].
  intros [= <-]. now split.
Qed.

Lemma limit_length {A} (n : Z) (rows out : list A) :
  Pg.limit n rows = inr out -> Z.of_nat (List.length out) <= n.
Proof.
  intros H. apply limit_rows in H as [Hn ->].
  pose proof (firstn_le_length (Z.to_nat n) rows). rewrite length_firstn. lia.
Qed.

Lemma filter_map_In {A B} (f : A -> option B) l y :
  In y (Pg.filter_map f l) <-> exists x, In x l /\ f x = Some y.
Proof.
  induction l as [|x l IH]; simpl.
  - split; [tauto|intros [x [[] _]]].
  - destruct (f x) as [y'|] eqn:E; simpl; rewrite IH; split.
    + intros [<- | [z [Hz Hf]]]; [exists x; auto|exists z; auto].
    + intros [z [[<- | Hz] Hf]]; [left; congruence|right; exists z; auto].
    + intros [z [Hz Hf]]. exists z; auto.
    + intros [z [[<- | Hz] Hf]]; [congruence|exists z; auto].
  Qed.

(** The order of [float8]: total and transitive, NaN last. *)
Lemma le_total x y : Pg.le x y = false -> Pg.le y x = true.
Proof.
  destruct x as [a|], y as [b|]; simpl; try reflexivity; try discriminate.
  intros H. apply Qle_bool_iff.
  destruct (Qlt_le_dec b a) as [Hlt | Hle]; [now apply Qlt_le_weak|].
  apply Qle_bool_iff in Hle. congruence.
Qed.

Lemma le_trans x y z : Pg.le x y = true -> Pg.le y z = true -> Pg.le x z = true.
Proof.
  destruct x as [a|], y as [b|], z as [c|]; simpl; try reflexivity; try discriminate.
  rewrite !Qle_bool_iff. apply Qle_trans.
Qed.

Lemma limit_count_rows {A} (n : Pg.arg Z) (rows out : list A) :
  Pg.limit_count n rows = inr out ->
  exists k, out = firstn k rows /\
            forall z, n = Pg.given z -> 0 <= z /\ k = Z.to_nat z.
Proof.
  destruct n as [| |z]; simpl.
  - intros H. apply limit_rows in H as [_ ->]. eexists. split; [reflexivity|].
    discriminate.
  - intros [= <-]. exists (List.length rows). split; [now rewrite firstn_all|].
    discriminate.
  - intros H. apply limit_rows in H as [Hz ->]. eexists. split; [reflexivity|].
    now intros z' [= <-].
Qed.

Section MatchMembersFacts.
Variable cosine_distance : vector -> vector -> num.
Variable visits : vector -> member_row -> bool.

(** The rows before projection: visited, kept by the WHERE clause, in
    ascending distance, cut at the limit. *)
Lemma match_members_rows members teams q n t out :
  Pg.match_members cosine_distance visits members teams q n (Pg.given t) = inr out ->
  exists rows k,
    out = map (Pg.select_list teams) rows /\
    rows = firstn k
             (Pg.order_by_distance
                (Pg.filter_map (Pg.where_clause cosine_distance q t)
                   (List.filter (visits q) members))) /\
    forall z, n = Pg.given z -> 0 <= z /\ k = Z.to_nat z.
Proof.
  unfold Pg.match_members. cbn [Pg.qualifying].
  destruct (Pg.limit_count n _) as [e | rows] eqn:L; [discriminate|].
  intros [= <-]. apply limit_count_rows in L as [k [-> Hk]]. eauto.
Qed.

Lemma order_by_distance_sorted rows :
  StronglySorted (fun a b => Pg.le (snd a) (snd b) = true) (Pg.order_by_distance rows).
Proof.
  apply (sort_by_sorted _ (fun _ => True)).
  - auto.
  - intros x y _ _. apply le_total.
  - intros x y z _ _ _. apply le_trans.
  - apply Forall_forall. auto.
Qed.

Lemma where_clause_kept q t m md :
  Pg.where_clause cosine_distance q t m = Some md ->
  exists e, m_embedding m = Some e /\
            md = (m, cosine_distance e q) /\
            Pg.ge (Pg.one_minus (cosine_distance e q)) t = true.
Proof.
  unfold Pg.where_clause. destruct (m_embedding m) as [e|]; [|discriminate].
  destruct (Pg.ge _ t) eqn:E; [|discriminate].
  intros [= <-]. exists e. now repeat split.
Qed.

Lemma match_members_kept members q k t rows md :
  rows = firstn k
           (Pg.order_by_distance
              (Pg.filter_map (Pg.where_clause cosine_distance q t)
                 (List.filter (visits q) members))) ->
  In md rows ->
  exists m e, In m members /\ visits q m = true /\ m_embedding m = Some e /\
              md = (m, cosine_distance e q) /\
              Pg.ge (Pg.one_minus (cosine_distance e q)) t = true.
Proof.
  intros -> H. apply In_firstn in H.
  unfold Pg.order_by_distance in H. apply sort_by_In in H.
  apply filter_map_In in H as [m [Hm Hw]]. apply filter_In in Hm as [Hm Hv].
  apply where_clause_kept in Hw as [e [He [-> Ht]]]. now exists m, e.
Qed.
End MatchMembersFacts.

(** ** The search functions, by cases on what the backends answer *)

Section FunctionFacts.
Variable cosine_distance : vector -> vector -> num.
Variable w : World.

Lemma performSemanticSearch_cases query limit :
  performSemanticSearch cosine_distance w query limit =
  match ai_run w query with
  | None =>
      ([Call_performSemanticSearch query limit; Backend_ai_run query],
       Thrown (JsError "Failed to generate embedding"))
  | Some v =>
      let log := [Call_performSemanticSearch query limit; Backend_ai_run query;
                  Backend_rpc_match_members v limit (1 # 10)] in
      match rpc_error w with
      | Some e => (log, Thrown (JsObject e))
      | None =>
          match int_argument limit with
          | inl e => (log, Thrown (JsObject e))
          | inr n =>
              match Pg.match_members cosine_distance (visits w) (members w) (teams w) v
                      n (Pg.given (1 # 10)%Q) with
              | inl e => (log, Thrown (JsObject e))
              | inr matches => (log, Returned (map semantic_result matches))
              end
          end
      end
  end.
Proof.
  unfold performSemanticSearch, generateEmbedding, rpc_match_members.
  destruct (ai_run w query) as [v|]; simpl; [|reflexivity].
  destruct (rpc_error w) as [e|]; simpl; [reflexivity|].
  destruct (int_argument limit) as [e | n]; simpl; [reflexivity|].
  destruct (Pg.match_members _ _ _ _ _ _ _) as [e | [|r rows]]; reflexivity.
Qed.

Lemma performTextSearch_cases query limit :
  performTextSearch w query limit =
  let log := [Call_performTextSearch query limit;
              Backend_select_members (text_filter query) limit] in
  match select_error w with
  | Some e => (log, Thrown (JsObject e))
  | None =>
      match row_limit w limit with
      | inl e => (log, Thrown (JsObject e))
      | inr n =>
          match Pg.select_members (other_filter w) (members w) (teams w)
                  (text_filter query) n with
          | inl e => (log, Thrown (JsObject e))
          | inr rows =>
              (log, Returned (sort_by by_score_desc
                                (map (text_result (searchTerms query)) rows)))
          end
      end
  end.
Proof.
  unfold performTextSearch, query_members, text_filter.
  destruct (orConditions (searchTerms query)) as [|c cs] eqn:E; simpl;
    (destruct (select_error w) as [e|]; simpl; [reflexivity|]);
    (destruct (row_limit w limit) as [e | n]; simpl; [reflexivity|]);
    destruct (Pg.select_members _ _ _ _ _) as [e | rows]; reflexivity.
Qed.
End FunctionFacts.

(** ** The handler, by cases on the request *)

Section HandlerFacts.
Variable cosine_distance : vector -> vector -> num.
Variable w : World.

Lemma search_cases query limit :
  search cosine_distance w query limit =
  match performSemanticSearch cosine_distance w query limit with
  | (slog, Returned results) => (slog, Returned results)
  | (slog, Thrown _) =>
      match performTextSearch w query limit with
      | (tlog, Returned results) => ((slog ++ tlog)%list, Returned results)
      | (tlog, Thrown _) =>
          ((slog ++ tlog)%list,
           Thrown (JsError "Search functionality is currently unavailable"))
      end
  end.
Proof.
  unfold search.
  destruct (performSemanticSearch _ _ _ _) as [slog [rs | e]]; simpl; [reflexivity|].
  destruct (performTextSearch _ _ _) as [tlog [rs | e']]; simpl; [reflexivity|].
  now rewrite app_nil_r.
Qed.

Lemma method_not_options req :
  String.eqb (method req) "POST" = true -> String.eqb (method req) "OPTIONS" = false.
Proof. intros H. apply String.eqb_eq in H. now rewrite H. Qed.

Lemma handler_searching req query limit :
  search_arguments w req = Some (query, limit) ->
  handler cosine_distance w req =
  match search cosine_distance w query limit with
  | (log, Returned results) => (log, success_response w query results)
  | (log, Thrown error) => (log, failure_response w error)
  end.
Proof.
  unfold search_arguments, handler, process.
  destruct (String.eqb (method req) "POST") eqn:P; cbn [andb negb orb];
    [|discriminate].
  rewrite (method_not_options _ P).
  destruct (env_set (SUPABASE_URL w)); cbn [andb negb orb]; [|discriminate].
  destruct (env_set (SUPABASE_SERVICE_ROLE_KEY w)); cbn [andb negb orb];
    [|discriminate].
  destruct (body req) as [| |[| |s] l]; try discriminate.
  destruct (Js.truthy s); cbn [andb negb orb]; [|discriminate].
  destruct (3 <=? String.length (Js.trim s))%nat eqn:L; [|discriminate].
  intros [= <- <-]. apply Nat.leb_le in L.
  destruct (Nat.ltb_spec (String.length (Js.trim s)) 3); [lia|].
  unfold bind.
  destruct (search _ _ _ _) as [log [rs | e]]; [|reflexivity].
  simpl. now rewrite app_nil_r.
Qed.

(** A request that does not reach the searches logs nothing and carries
    no result list. *)
Lemma handler_not_searching req :
  search_arguments w req = None ->
  fst (handler cosine_distance w req) = [] /\
  response_results (snd (handler cosine_distance w req)) = None /\
  status (snd (handler cosine_distance w req)) <> 200 \/
  String.eqb (method req) "OPTIONS" = true /\
  handler cosine_distance w req =
    ([], {| status := 200; headers := corsHeaders; payload := None |}).
Proof.
  unfold search_arguments, handler, process.
  destruct (String.eqb (method req) "OPTIONS") eqn:O; [right; split; reflexivity|].
  intros H. left.
  destruct (String.eqb (method req) "POST") eqn:P; cbn [andb negb orb] in *;
    [|repeat split; discriminate].
  destruct (env_set (SUPABASE_URL w)); cbn [andb negb orb] in *;
    [|repeat split; discriminate].
  destruct (env_set (SUPABASE_SERVICE_ROLE_KEY w)); cbn [andb negb orb] in *;
    [|repeat split; discriminate].
  destruct (body req) as [| |[| |s] l]; try (repeat split; discriminate).
  destruct (Js.truthy s); cbn [andb negb orb] in *; [|repeat split; discriminate].
  destruct (3 <=? String.length (Js.trim s))%nat eqn:L; [discriminate|].
  apply Nat.leb_gt in L.
  destruct (Nat.ltb_spec (String.length (Js.trim s)) 3); [|lia].
  repeat split; discriminate.
Qed.
End HandlerFacts.

(** ** Where a result list comes from *)

Section ResultFacts.
Variable cosine_distance : vector -> vector -> num.
Variable w : World.

Lemma search_arguments_limit req query limit :
  search_arguments w req = Some (query, limit) ->
  limit = Math_min (limit_or_default (requested_limit req)) 50.
Proof.
  unfold search_arguments, requested_limit.
  destruct (_ && _ && _); [|discriminate].
  destruct (body req) as [| |[| |s] l]; try discriminate.
  destruct (_ && _); [|discriminate]. now intros [= _ <-].
Qed.

(** A response carries results only when the request reached the
    searches and one of them returned. *)
Lemma handler_results req results :
  response_results (snd (handler cosine_distance w req)) = Some results ->
  exists query limit,
    search_arguments w req = Some (query, limit) /\
    snd (handler cosine_distance w req) = success_response w query results /\
    ((exists log, performSemanticSearch cosine_distance w query limit
                  = (log, Returned results)) \/
     (exists log, performTextSearch w query limit = (log, Returned results))).
Proof.
  destruct (search_arguments w req) as [[query limit]|] eqn:S.
  - rewrite (handler_searching _ _ _ _ _ S), search_cases.
    intros H. exists query, limit. split; [reflexivity|].
    destruct (performSemanticSearch _ _ _ _) as [slog [rs | e]].
    + injection H as <-. split; [reflexivity|]. left. now exists slog.
    + destruct (performTextSearch _ _ _) as [tlog [rs | e']]; [|discriminate].
      injection H as <-. split; [reflexivity|]. right. now exists tlog.
  - destruct (handler_not_searching cosine_distance w req S) as [[_ [H _]] | [_ H]];
      rewrite H; discriminate.
Qed.

Lemma semantic_results query limit log results :
  performSemanticSearch cosine_distance w query limit = (log, Returned results) ->
  exists v n rows k,
    ai_run w query = Some v /\ int_argument limit = inr n /\
    rows = firstn k
             (Pg.order_by_distance
                (Pg.filter_map (Pg.where_clause cosine_distance v (1 # 10))
                   (List.filter (visits w v) (members w)))) /\
    (forall z, n = Pg.given z -> 0 <= z /\ k = Z.to_nat z) /\
    results = map (fun md => semantic_result (Pg.select_list (teams w) md)) rows.
Proof.
  rewrite performSemanticSearch_cases.
  destruct (ai_run w query) as [v|]; [|discriminate]. cbv zeta.
  destruct (rpc_error w); [discriminate|].
  destruct (int_argument limit) as [e | n] eqn:N; [discriminate|].
  destruct (Pg.match_members _ _ _ _ _ _ _) as [e | out] eqn:M; [discriminate|].
  intros [= _ <-]. apply match_members_rows in M as [rows [k [-> [Hrows Hk]]]].
  exists v, n, rows, k. rewrite map_map. auto.
Qed.

Lemma text_results query limit log results :
  performTextSearch w query limit = (log, Returned results) ->
  exists n rows,
    row_limit w limit = inr n /\
    Pg.select_members (other_filter w) (members w) (teams w) (text_filter query) n
      = inr rows /\
    results = sort_by by_score_desc (map (text_result (searchTerms query)) rows).
Proof.
  rewrite performTextSearch_cases. cbv zeta.
  destruct (select_error w); [discriminate|].
  destruct (row_limit w limit) as [e | n] eqn:N; [discriminate|].
  destruct (Pg.select_members _ _ _ _ _) as [e | rows] eqn:M; [discriminate|].
  intros [= _ <-]. exists n, rows. repeat split. exact M.
Qed.
End ResultFacts.

Lemma same_score_refl x : same_score x x.
Proof. destruct x; simpl; [apply Qeq_refl|exact I]. Qed.

(** [match_score || 0] on a score the database computed: the number it is,
    or NaN. *)
Lemma or_zero_some (x : num) : same_score (or_zero (Some x)) x.
Proof.
  destruct x as [q|]; simpl; [|exact I].
  destruct (Qeq_bool q 0) eqn:E; simpl; [|apply Qeq_refl].
  apply Qeq_bool_eq in E. now symmetry.
Qed.

Lemma semantic_score teams m d :
  same_score (similarity_score (semantic_result (Pg.select_list teams (m, d))))
             (Pg.one_minus d).
Proof. apply or_zero_some. Qed.

(** ** Ordering of the results *)

Lemma by_score_desc_sorted (l : list SearchResult) :
  Forall (fun r => exists q, similarity_score r = Fin q) l ->
  StronglySorted (fun a b => score_le (similarity_score b) (similarity_score a))
                 (sort_by by_score_desc l).
Proof.
  apply sort_by_sorted.
  - intros x y [a Hx] [b Hy]. unfold by_score_desc. rewrite Hx, Hy. simpl.
    apply Qle_bool_imp_le.
  - intros x y [a Hx] [b Hy]. unfold by_score_desc. rewrite Hx, Hy. simpl.
    intros H. destruct (Qlt_le_dec a b) as [Hlt | Hle].
    + now apply Qlt_le_weak.
    + apply Qle_bool_iff in Hle. congruence.
  - intros x y z [a Hx] [b Hy] [c Hz]. rewrite Hx, Hy, Hz. simpl.
    intros Hxy Hyz. eapply Qle_trans; eauto.
Qed.

Lemma sorted_descending (results : list SearchResult) :
  StronglySorted (fun a b => score_le (similarity_score b) (similarity_score a)) results ->
  descending results.
Proof.
  intros H i j a b Hij Ha Hb.
  exact (StronglySorted_nth _ results H i j a b Hij Ha Hb).
Qed.

Lemma text_results_scored terms rows :
  Forall (fun r => exists q, similarity_score r = Fin q) (map (text_result terms) rows).
Proof.
  apply Forall_forall. intros r Hr. apply in_map_iff in Hr as [member [<- _]].
  now eexists.
Qed.

Lemma text_descending w query limit log results :
  performTextSearch w query limit = (log, Returned results) ->
  descending results.
Proof.
  intros H. apply text_results in H as [n [rows [_ [_ ->]]]].
  apply sorted_descending, by_score_desc_sorted, text_results_scored.
Qed.

(** C5 fails on the code. A member whose stored embedding is the zero
    vector has the distance NaN to every query: the WHERE clause of
    [match_members] lets the row pass, the ORDER BY puts it last, and the
    response to the query "React developer" lists a score of 3/5 followed
    by a score that is no number, which is not a non-increasing order. *)
Theorem zero_vector_breaks_the_order :
  exists a b,
    response_results
      (snd (handler Demo.distance DemoZero.world
              (Demo.post "React developer" (limit_number 5)))) = Some [a; b] /\
    id a = 1 /\ similarity_score a = Fin (3 # 5) /\
    id b = 2 /\ similarity_score b = NaN /\
    ~ descending [a; b].
Proof.
  eexists. eexists. split; [vm_compute; reflexivity|].
  repeat split.
  intros H. exact (H 0%nat 1%nat _ _ (Nat.lt_0_1) eq_refl eq_refl).
Qed.

(** ** Number of results *)

Lemma select_members_length other members teams or_filter n rows :
  Pg.select_members other members teams or_filter (Some n) = inr rows ->
  Z.of_nat (List.length rows) <= n.
Proof.
  unfold Pg.select_members.
  destruct (Pg.selection other or_filter) as [e | keep]; [discriminate|].
  destruct (Pg.limit n _) as [e | kept] eqn:L; [discriminate|].
  intros [= <-]. rewrite length_map. eapply limit_length, L.
Qed.

Section Count.
Variable cosine_distance : vector -> vector -> num.
Variable w : World.

Lemma semantic_length query (n : Z) log results :
  performSemanticSearch cosine_distance w query n = (log, Returned results) ->
  Z.of_nat (List.length results) <= n.
Proof.
  intros H. apply semantic_results in H as [v [a [rows [k [_ [Ha [Hrows [Hk ->]]]]]]]].
  injection Ha as <-. destruct (Hk n eq_refl) as [Hn ->].
  rewrite length_map, Hrows, length_firstn. lia.
Qed.

Lemma text_length query (n : Z) log results :
  performTextSearch w query n = (log, Returned results) ->
  Z.of_nat (List.length results) <= n.
Proof.
  intros H. apply text_results in H as [a [rows [Ha [Hsel ->]]]].
  injection Ha as <-.
  rewrite sort_by_length, length_map. eapply select_members_length, Hsel.
Qed.

Lemma handler_result_length req results (n : Z) :
  response_results (snd (handler cosine_distance w req)) = Some results ->
  Math_min (limit_or_default (requested_limit req)) 50 = n ->
  Z.of_nat (List.length results) <= n.
Proof.
  intros H Hn.
  apply handler_results in H as [query [limit [Hargs [_ Hsrc]]]].
  apply search_arguments_limit in Hargs.
  rewrite Hn in Hargs. subst limit. destruct Hsrc as [[log H] | [log H]].
  - eapply semantic_length, H.
  - eapply text_length, H.
Qed.

Lemma parsed_natural n : 0 <= n -> Math_min (parsed n) 50 = Z.min n 50.
Proof.
  intros Hn. unfold parsed.
  assert (50 < double_limit) as Hbig by (vm_compute; reflexivity).
  destruct (Z.leb_spec double_limit n); [simpl; f_equal; lia|].
  destruct (Z.leb_spec n (- double_limit)); [lia|reflexivity].
Qed.

(** C3, amended. Every response that carries results has as [count] the
    number of its results, and when the limit of the request body is
    absent, null or a non-negative integer, there are at most
    min(limit || 10, 50) of them; so it is for every limit of which
    min(limit || 10, 50) is a non-negative integer. *)
Theorem result_count_bounded req results :
  response_results (snd (handler cosine_distance w req)) = Some results ->
  response_count (snd (handler cosine_distance w req))
    = Some (Z.of_nat (List.length results)) /\
  (requested_limit req = limit_absent \/ requested_limit req = limit_null ->
   Z.of_nat (List.length results) <= Z.min 10 50) /\
  (forall n, requested_limit req = limit_number n -> 0 <= n ->
             Z.of_nat (List.length results) <= Z.min (if n =? 0 then 10 else n) 50) /\
  (forall n : Z, Math_min (limit_or_default (requested_limit req)) 50 = n -> 0 <= n ->
                 Z.of_nat (List.length results) <= n).
Proof.
  intros H. split; [|split; [|split]].
  - apply handler_results in H as [query [limit [_ [Hresp _]]]].
    now rewrite Hresp.
  - intros Hl. apply (handler_result_length _ _ _ H).
    destruct Hl as [-> | ->]; reflexivity.
  - intros n Hl Hn. apply (handler_result_length _ _ _ H).
    rewrite Hl. simpl. destruct (n =? 0); [reflexivity|].
    now apply parsed_natural.
  - intros n Hn _. exact (handler_result_length req results n H Hn).
Qed.
End Count.

(** C3, as stated, fails: a request with limit 0 is answered with two
    results, more than min(0, 50); and a request whose limit is a value
    that [Math.min] turns into NaN, such as the string "abc", is answered
    with 51 results, more than 50. *)
Lemma limit_zero_exceeds_requested :
  requested_limit (Demo.post "React developer" (limit_number 0)) = limit_number 0 /\
  status (snd (handler Demo.distance Demo.world
                 (Demo.post "React developer" (limit_number 0)))) = 200 /\
  response_count (snd (handler Demo.distance Demo.world
                         (Demo.post "React developer" (limit_number 0)))) = Some 2 /\
  ~ 2 <= Z.min 0 50 /\
  status (snd (handler Demo.distance DemoCrowd.world
                 (Demo.post "engineer" (limit_other true not_a_number)))) = 200 /\
  response_count (snd (handler Demo.distance DemoCrowd.world
                         (Demo.post "engineer" (limit_other true not_a_number))))
    = Some 51 /\
  ~ 51 <= 50.
Proof.
  repeat split; try reflexivity; try (vm_compute; reflexivity);
    vm_compute; intros H; now apply H.
Qed.

Lemma result_count_bounded_witness :
  response_count (snd (handler Demo.distance Demo.world
                         (Demo.post "React developer" (limit_number 5)))) = Some 2 /\
  Z.of_nat 2 <= Z.min 5 50.
Proof.
  destruct (result_count_bounded Demo.distance Demo.world
              (Demo.post "React developer" (limit_number 5)) [_; _]
              ltac:(vm_compute; reflexivity)) as (Hcount & _ & Hn & _).
  split; [exact Hcount|]. apply (Hn 5 eq_refl). lia.
Defined.

(** ** Range of the scores *)

Lemma accumulate_nonneg text terms score :
  (0 <= score)%Q -> (0 <= fold_left (accumulate text) terms score)%Q.
Proof.
  revert score. induction terms as [|t terms IH]; intros score H; simpl; [exact H|].
  apply IH. unfold accumulate. destruct (Js.includes text t); [|exact H].
  apply (Qle_trans _ (score + 0)).
  - now rewrite Qplus_0_r.
  - apply Qplus_le_r. discriminate.
Qed.

Lemma text_score_range terms member :
  (0 <= text_score terms member <= 1)%Q.
Proof.
  unfold text_score. split.
  - apply Q.min_glb; [apply accumulate_nonneg; apply Qle_refl|discriminate].
  - apply Q.le_min_r.
Qed.

Lemma text_range w query limit log results r :
  performTextSearch w query limit = (log, Returned results) ->
  In r results ->
  in_unit_interval (similarity_score r).
Proof.
  intros H Hr. apply text_results in H as [n [rows [_ [_ ->]]]].
  apply sort_by_In, in_map_iff in Hr as [member [<- _]].
  apply text_score_range.
Qed.

(** C6 fails on the code. The response to the query "React developer"
    with limit 5 holds a result whose [similarity_score] is no number, so
    not in the interval [0, 1]: the member's stored embedding is the zero
    vector, the database computes the match score NaN for it, the
    threshold test lets it pass, and [match_score || 0] keeps it. *)
Theorem zero_vector_score_is_outside_the_interval :
  exists results r,
    status (snd (handler Demo.distance DemoZero.world
                   (Demo.post "React developer" (limit_number 5)))) = 200 /\
    response_results
      (snd (handler Demo.distance DemoZero.world
              (Demo.post "React developer" (limit_number 5)))) = Some results /\
    In r results /\ id r = 2 /\
    similarity_score r = NaN /\
    ~ in_unit_interval (similarity_score r).
Proof.
  eexists. eexists. split; [reflexivity|].
  split; [vm_compute; reflexivity|].
  split; [right; left; reflexivity|].
  repeat split. intros [].
Qed.

(** ** The contract of [match_members] *)

Lemma semantic_log_rpc cosine_distance w query limit ev :
  In ev (fst (performSemanticSearch cosine_distance w query limit)) ->
  forall v n t, ev = Backend_rpc_match_members v n t -> n = limit /\ t = (1 # 10)%Q.
Proof.
  rewrite performSemanticSearch_cases. intros H v n t ->.
  destruct (ai_run w query) as [v'|]; cbv zeta in H.
  - assert (In (Backend_rpc_match_members v n t)
              [Call_performSemanticSearch query limit; Backend_ai_run query;
               Backend_rpc_match_members v' limit (1 # 10)]) as H'.
    { destruct (rpc_error w); [exact H|].
      destruct (int_argument limit); [exact H|].
      destruct (Pg.match_members _ _ _ _ _ _ _); exact H. }
    simpl in H'. destruct H' as [H' | [H' | [H' | []]]]; try discriminate.
    now injection H' as _ <- <-.
  - simpl in H. destruct H as [H | [H | []]]; discriminate.
Qed.

(** C7 fails on the code. Called with the threshold 0.1 on a table read
    in full, [match_members] returns the member whose embedding is the
    zero vector: its similarity is NaN, which is not a similarity of at
    least 0.1, and the row stands after a row of similarity 3/5 although
    the database orders NaN above every number, so the rows are not in
    descending similarity. *)
Theorem match_members_returns_the_zero_vector :
  exists a b,
    Pg.match_members Demo.distance (fun _ _ => true) [DemoZero.zed; DemoZero.ada] []
      DemoZero.query_vector (Pg.given 5) (Pg.given (1 # 10)%Q) = inr [a; b] /\
    mr_id a = 1 /\ mr_match_score a = Some (Fin (3 # 5)) /\
    mr_id b = 2 /\ mr_match_score b = Some NaN /\ mr_distance b = Some NaN /\
    m_embedding DemoZero.zed = Some DemoZero.zero_vector /\
    Pg.le (Fin (3 # 5)) NaN = true /\ Pg.le NaN (Fin (3 # 5)) = false.
Proof.
  eexists. eexists. split; [vm_compute; reflexivity|].
  repeat split.
Qed.

(** ** The default limit *)

Section DefaultLimit.
Variable cosine_distance : vector -> vector -> num.
Variable w : World.

Lemma search_log_limit query limit ev l :
  In ev (fst (search cosine_distance w query limit)) ->
  event_limit ev = Some l -> l = limit.
Proof.
  assert (forall log : list event,
             Forall (fun ev => forall l, event_limit ev = Some l -> l = limit) log ->
             In ev log -> event_limit ev = Some l -> l = limit) as Hall.
  { intros log Hl Hin. rewrite Forall_forall in Hl. now apply Hl. }
  assert (Forall (fun ev => forall l, event_limit ev = Some l -> l = limit)
                 (fst (performSemanticSearch cosine_distance w query limit))) as Hs.
  { rewrite performSemanticSearch_cases.
    destruct (ai_run w query) as [v|]; cbv zeta;
      [destruct (rpc_error w);
       [|destruct (int_argument limit);
         [|destruct (Pg.match_members _ _ _ _ _ _ _)]]|];
      simpl; repeat constructor; simpl; congruence. }
  assert (Forall (fun ev => forall l, event_limit ev = Some l -> l = limit)
                 (fst (performTextSearch w query limit))) as Ht.
  { rewrite performTextSearch_cases. cbv zeta.
    destruct (select_error w);
      [|destruct (row_limit w limit); [|destruct (Pg.select_members _ _ _ _ _)]];
      simpl; repeat constructor; simpl; congruence. }
  apply Hall. rewrite search_cases.
  destruct (performSemanticSearch _ _ _ _) as [slog [rs | e]]; [exact Hs|].
  destruct (performTextSearch _ _ _) as [tlog [rs | e']]; simpl;
    apply Forall_app; split; assumption.
Qed.

End DefaultLimit.


(** ** The fallback *)

Section Fallback.
Variable cosine_distance : vector -> vector -> num.
Variable w : World.

Lemma search_log_semantic_call query limit query' limit' :
  In (Call_performSemanticSearch query' limit')
     (fst (search cosine_distance w query limit)) ->
  query' = query /\ limit' = limit.
Proof.
  rewrite search_cases, performSemanticSearch_cases, performTextSearch_cases.
  cbv zeta.
  destruct (ai_run w query) as [v|];
    [destruct (rpc_error w);
     [|destruct (int_argument limit);
       [|destruct (Pg.match_members _ _ _ _ _ _ _)]]|];
    try (destruct (select_error w);
         [|destruct (row_limit w limit); [|destruct (Pg.select_members _ _ _ _ _)]]);
    simpl; intros H; decompose [or] H; try discriminate; try contradiction;
    match goal with E : Call_performSemanticSearch _ _ = _ |- _ =>
      now injection E as <- <- end.
Qed.

(** The handler invokes [performSemanticSearch] exactly for a POST request
    with a valid query, the environment being configured. *)
Lemma semantic_search_invoked req query limit :
  In (Call_performSemanticSearch query limit) (fst (handler cosine_distance w req)) <->
  search_arguments w req = Some (query, limit).
Proof.
  split.
  - intros H. destruct (search_arguments w req) as [[query' limit']|] eqn:S.
    + rewrite (handler_searching _ _ _ _ _ S) in H.
      assert (In (Call_performSemanticSearch query limit)
                 (fst (search cosine_distance w query' limit'))) as Hin.
      { destruct (search _ _ _ _) as [log [rs | e]]; exact H. }
      apply search_log_semantic_call in Hin as [-> ->]. reflexivity.
    + destruct (handler_not_searching cosine_distance w req S) as [[E _] | [_ E]];
        rewrite E in H; destruct H.
  - intros S. rewrite (handler_searching _ _ _ _ _ S), search_cases.
    rewrite performSemanticSearch_cases. cbv zeta.
    destruct (ai_run w query) as [v|];
      [destruct (rpc_error w);
       [|destruct (int_argument limit);
         [|destruct (Pg.match_members _ _ _ _ _ _ _)]]|];
      try (destruct (performTextSearch w query limit) as [tlog [rs | e']]);
      simpl; auto.
Qed.

Lemma performTextSearch_logs_its_call query limit :
  In (Call_performTextSearch query limit) (fst (performTextSearch w query limit)).
Proof.
  rewrite performTextSearch_cases. cbv zeta.
  destruct (select_error w);
    [|destruct (row_limit w limit); [|destruct (Pg.select_members _ _ _ _ _)]];
    now left.
Qed.

(** C1. When the handler has invoked [performSemanticSearch], which it
    does for a POST request with a valid query, and that call throws, the
    handler invokes [performTextSearch] with the same query and limit.
    When the text search returns, the response has status 200 and carries
    [success: true], the query, the results of the text search and their
    number; only when the text search throws too, the response has status
    500 and carries [success: false], no results and a fixed message.
    Neither depends on the error of the semantic search. *)
Theorem semantic_failure_falls_back req query limit slog e :
  In (Call_performSemanticSearch query limit) (fst (handler cosine_distance w req)) ->
  performSemanticSearch cosine_distance w query limit = (slog, Thrown e) ->
  let r := snd (handler cosine_distance w req) in
  exists tlog o,
    performTextSearch w query limit = (tlog, o) /\
    fst (handler cosine_distance w req) = (slog ++ tlog)%list /\
    In (Call_performTextSearch query limit) (fst (handler cosine_distance w req)) /\
    r = match o with
        | Returned results => success_response w query results
        | Thrown _ =>
            failure_response w (JsError "Search functionality is currently unavailable")
        end /\
    (status r = 500 <-> exists e', o = Thrown e') /\
    (forall results, o = Returned results ->
       status r = 200 /\
       keys r = ["success"; "query"; "results"; "count"; "timestamp"] /\
       response_property "success" r = Some (JBool true) /\
       response_property "query" r = Some (JString query) /\
       response_results r = Some results /\
       response_count r = Some (Z.of_nat (List.length results))) /\
    (forall e', o = Thrown e' ->
       status r = 500 /\
       keys r = ["success"; "error"; "timestamp"] /\
       response_property "success" r = Some (JBool false) /\
       response_property "error" r
         = Some (JString "Search functionality is currently unavailable") /\
       response_results r = None).
Proof.
  intros Hcall Hsem. cbv zeta. apply semantic_search_invoked in Hcall.
  rewrite (handler_searching _ _ _ _ _ Hcall), search_cases, Hsem.
  pose proof (performTextSearch_logs_its_call query limit) as Hin.
  destruct (performTextSearch w query limit) as [tlog o] eqn:T.
  exists tlog, o. split; [reflexivity|]. simpl in Hin.
  assert (In (Call_performTextSearch query limit) (slog ++ tlog)%list) as Hin'
      by (apply in_or_app; now right).
  destruct o as [rs | e']; simpl;
    (split; [reflexivity|]); (split; [exact Hin'|]); (split; [reflexivity|]);
    split; try split.
  - discriminate.
  - intros [e'' E]. discriminate.
  - intros rs' [= <-]. repeat split.
  - intros e'' [=].
  - now exists e'.
  - reflexivity.
  - intros rs' [=].
  - intros e'' _. repeat split.
Qed.
End Fallback.

Lemma semantic_failure_falls_back_witness :
  status (snd (handler Demo.distance Demo.world_no_model
                 (Demo.post "React developer" (limit_number 5)))) = 200 /\
  response_results (snd (handler Demo.distance Demo.world_no_model
                           (Demo.post "React developer" (limit_number 5))))
  = Some (sort_by by_score_desc
            (map (text_result ["react"; "developer"])
               (map (Pg.project (teams Demo.world)) [Demo.ada; Demo.cy]))) /\
  response_count (snd (handler Demo.distance Demo.world_no_model
                         (Demo.post "React developer" (limit_number 5)))) = Some 2.
Proof.
  destruct (semantic_failure_falls_back Demo.distance Demo.world_no_model
              (Demo.post "React developer" (limit_number 5)) "React developer" 5
              [Call_performSemanticSearch "React developer" 5;
               Backend_ai_run "React developer"]
              (JsError "Failed to generate embedding")
              ltac:(vm_compute; left; reflexivity) ltac:(vm_compute; reflexivity))
    as (tlog & o & Ht & _ & _ & _ & _ & Hok & _).
  vm_compute in Ht. injection Ht as _ <-.
  destruct (Hok _ eq_refl) as (Hs & _ & _ & _ & Hr & Hc).
  split; [exact Hs|]. split; [exact Hr|exact Hc].
Defined.

(** ** Validation *)

Lemma trimStart_length s : (String.length (Js.trimStart s) <= String.length s)%nat.
Proof.
  induction s as [|c s IH]; simpl; [lia|].
  destruct (Js.is_space c); simpl; lia.
Qed.

Lemma trimEnd_length s : (String.length (Js.trimEnd s) <= String.length s)%nat.
Proof.
  induction s as [|c s IH]; simpl; [lia|].
  destruct (Js.trimEnd s) as [|c' t] eqn:E.
  - destruct (Js.is_space c); simpl; lia.
  - simpl in *. lia.
Qed.

Lemma trim_length s : (String.length (Js.trim s) <= String.length s)%nat.
Proof.
  unfold Js.trim. etransitivity; [apply trimEnd_length|apply trimStart_length].
Qed.

Section Validation.
Variable cosine_distance : vector -> vector -> num.
Variable w : World.

(** C2, amended. A request whose query string is shorter than 3
    characters invokes neither search function and no backend; when its
    method is POST and both Supabase environment variables are set, the
    response has status 400 and a body that holds only the validation
    error. *)
Theorem short_query_rejected req s l :
  body req = json_value (query_string s) l ->
  (String.length s < 3)%nat ->
  fst (handler cosine_distance w req) = [] /\
  (method req = "POST" ->
   env_set (SUPABASE_URL w) = true ->
   env_set (SUPABASE_SERVICE_ROLE_KEY w) = true ->
   status (snd (handler cosine_distance w req)) = 400 /\
   exists message,
     payload (snd (handler cosine_distance w req)) = Some [("error", JString message)]).
Proof.
  intros Hbody Hlen. pose proof (trim_length s) as Htrim.
  assert (search_arguments w req = None) as S.
  { unfold search_arguments. rewrite Hbody.
    destruct (_ && _ && _); [|reflexivity].
    destruct (Nat.leb_spec 3 (String.length (Js.trim s))); [lia|].
    now rewrite andb_false_r. }
  split.
  - destruct (handler_not_searching cosine_distance w req S) as [[H _] | [_ H]];
      now rewrite H.
  - intros Hpost Hurl Hkey. unfold handler, process.
    rewrite Hpost, Hurl, Hkey, Hbody. cbn [String.eqb negb orb andb].
    change (String.eqb "POST" "OPTIONS") with false.
    change (String.eqb "POST" "POST") with true. cbn [negb].
    destruct (Js.truthy s); cbn [negb].
    + destruct (Nat.ltb_spec (String.length (Js.trim s)) 3); [|lia].
      simpl. eauto.
    + simpl. eauto.
Qed.
End Validation.

(** C2, as stated, fails: a GET request with the query "ab" is answered
    with 405, and a POST request with that query is answered with 500
    when the environment is not configured. *)
Lemma short_query_not_always_400 :
  (String.length "ab" < 3)%nat /\
  status (snd (handler Demo.distance Demo.world (Demo.get "ab"))) = 405 /\
  status (snd (handler Demo.distance Demo.world_no_env
                 (Demo.post "ab" limit_absent))) = 500.
Proof. repeat split; vm_compute; lia. Qed.

Lemma short_query_rejected_witness :
  fst (handler Demo.distance Demo.world (Demo.post "ab" (limit_number 5))) = [] /\
  status (snd (handler Demo.distance Demo.world (Demo.post "ab" (limit_number 5)))) = 400.
Proof.
  destruct (short_query_rejected Demo.distance Demo.world
              (Demo.post "ab" (limit_number 5)) "ab" (limit_number 5)
              eq_refl ltac:(simpl; lia)) as [Hlog Hpost].
  split; [exact Hlog|].
  exact (proj1 (Hpost eq_refl eq_refl eq_refl)).
Defined.

(** ** Shapes of the responses *)

Section Shapes.
Variable cosine_distance : vector -> vector -> num.
Variable w : World.

(** C8, amended. An OPTIONS request is answered with status 200, the CORS
    headers and no body; a request whose method is neither POST nor
    OPTIONS with status 405; a POST request with a success body
    {success, query, results, count, timestamp} and status 200, or with an
    error body {success: false, error, timestamp} and status 500, or, when
    the body is not JSON or the query fails validation, with status 400
    and a body {error}; and with the environment configured every POST
    request whose body is not JSON or whose query fails validation is
    answered so. *)
Theorem handler_responses req :
  (method req = "OPTIONS" ->
   handler cosine_distance w req
   = ([], {| status := 200; headers := corsHeaders; payload := None |})) /\
  (method req <> "OPTIONS" -> method req <> "POST" ->
   status (snd (handler cosine_distance w req)) = 405) /\
  (method req = "POST" ->
   let r := snd (handler cosine_distance w req) in
   (status r = 200 /\
    keys r = ["success"; "query"; "results"; "count"; "timestamp"] /\
    response_success r = Some (JBool true) /\
    valid_query (body req) = true) \/
   (status r = 500 /\
    keys r = ["success"; "error"; "timestamp"] /\
    response_success r = Some (JBool false)) \/
   (status r = 400 /\ keys r = ["error"] /\
    (body req = invalid_json \/
     exists q l, body req = json_value q l /\ valid_query (body req) = false))) /\
  (method req = "POST" ->
   env_set (SUPABASE_URL w) = true ->
   env_set (SUPABASE_SERVICE_ROLE_KEY w) = true ->
   (body req = invalid_json \/
    exists q l, body req = json_value q l /\ valid_query (body req) = false) ->
   let r := snd (handler cosine_distance w req) in
   status r = 400 /\ keys r = ["error"] /\ fst (handler cosine_distance w req) = []).
Proof.
  split; [|split; [|split]].
  - intros H. unfold handler. now rewrite H.
  - intros HO HP. unfold handler.
    destruct (String.eqb_spec (method req) "OPTIONS"); [contradiction|].
    destruct (String.eqb_spec (method req) "POST"); [contradiction|].
    reflexivity.
  - intros HP. cbv zeta. unfold handler, process, valid_query. rewrite HP.
    change (String.eqb "POST" "OPTIONS") with false.
    change (String.eqb "POST" "POST") with true. cbn [negb].
    destruct (negb (env_set (SUPABASE_URL w)) || _);
      [right; left; repeat split|].
    destruct (body req) as [| |[| |s] l].
    + right; right. repeat split. now left.
    + right; left. repeat split.
    + right; right. repeat split. right. eauto.
    + right; right. repeat split. right. eauto.
    + destruct (Js.truthy s); cbn [negb andb].
      * destruct (Nat.ltb_spec (String.length (Js.trim s)) 3) as [L | L].
        -- right; right. repeat split. right. exists (query_string s), l.
           split; [reflexivity|]. apply Nat.leb_gt, L.
        -- apply Nat.leb_le in L. rewrite L. unfold bind.
           destruct (search _ _ _ _) as [log [rs | e]];
             [left | right; left]; repeat split.
      * right; right. repeat split. right. eauto.
  - intros HP U K Hb. cbv zeta. unfold handler, process. rewrite HP, U, K.
    change (String.eqb "POST" "OPTIONS") with false.
    change (String.eqb "POST" "POST") with true. cbn [negb orb].
    destruct Hb as [-> | [q [l [-> V]]]]; [repeat split|].
    unfold valid_query in V. destruct q as [| |s]; [repeat split..|].
    destruct (Js.truthy s); cbn [negb andb] in *; [|repeat split].
    apply Nat.leb_gt in V.
    destruct (Nat.ltb_spec (String.length (Js.trim s)) 3); [|lia].
    repeat split.
Qed.
End Shapes.

(** C8, as stated, fails: a POST request with the query "ab" is answered
    with a body that holds only [error], which is neither of the two
    shapes. *)
Lemma validation_body_has_neither_shape :
  method (Demo.post "ab" limit_absent) = "POST" /\
  keys (snd (handler Demo.distance Demo.world (Demo.post "ab" limit_absent)))
    = ["error"] /\
  ["error"] <> ["success"; "query"; "results"; "count"; "timestamp"] /\
  ["error"] <> ["success"; "error"; "timestamp"].
Proof. repeat split; try reflexivity; discriminate. Qed.

Lemma handler_responses_witness :
  handler Demo.distance Demo.world {| method := "OPTIONS"; body := invalid_json |}
  = ([], {| status := 200; headers := corsHeaders; payload := None |}) /\
  status (snd (handler Demo.distance Demo.world (Demo.get "React"))) = 405 /\
  status (snd (handler Demo.distance Demo.world_down
                 (Demo.post "React developer" limit_absent))) <> 405 /\
  status (snd (handler Demo.distance Demo.world (Demo.post " ab " limit_absent))) = 400.
Proof.
  split; [|split; [|split]].
  - exact (proj1 (handler_responses Demo.distance Demo.world
                    {| method := "OPTIONS"; body := invalid_json |}) eq_refl).
  - apply (proj1 (proj2 (handler_responses Demo.distance Demo.world
                           (Demo.get "React")))); discriminate.
  - destruct (proj1 (proj2 (proj2 (handler_responses Demo.distance Demo.world_down
                              (Demo.post "React developer" limit_absent)))) eq_refl)
      as [[H _] | [[H _] | [H _]]]; rewrite H; discriminate.
  - refine (proj1 (proj2 (proj2 (proj2 (handler_responses Demo.distance Demo.world
                              (Demo.post " ab " limit_absent))))
                     eq_refl eq_refl eq_refl _)).
    right. eexists. eexists. split; reflexivity.
Defined.

(** ** The score of the text search *)

Lemma accumulate_count text terms init :
  (fold_left (accumulate text) terms init ==
   init + (2 # 10) * inject_Z (Z.of_nat (List.length (List.filter (Js.includes text) terms))))%Q.
Proof.
  revert init. induction terms as [|t terms IH]; intros init; simpl.
  - ring.
  - rewrite IH. unfold accumulate. destruct (Js.includes text t); simpl List.length.
    + rewrite Nat2Z.inj_succ, <- Z.add_1_r, inject_Z_plus. ring.
    + reflexivity.
Qed.




(** ** Terms and the OR predicate of the text search *)

Lemma split_nonempty sep s : Js.split sep s <> [].
Proof.
  destruct s as [|c s]; simpl; [discriminate|].
  destruct (Ascii.eqb c sep); [discriminate|].
  destruct (Js.split sep s); discriminate.
Qed.

(** Splitting loses nothing: the pieces joined by the separator are the
    string again. *)
Lemma join_split sep s : Js.join (String sep EmptyString) (Js.split sep s) = s.
Proof.
  induction s as [|c s IH]; [reflexivity|].
  simpl Js.split. destruct (Ascii.eqb_spec c sep) as [-> | Hc].
  - pose proof (split_nonempty sep s) as Hne.
    destruct (Js.split sep s) as [|p rest]; [contradiction|].
    change (Js.join (String sep "") ("" :: p :: rest))
      with (String sep (Js.join (String sep "") (p :: rest))).
    now rewrite IH.
  - pose proof (split_nonempty sep s) as Hne.
    destruct (Js.split sep s) as [|p rest]; [contradiction|].
    destruct rest as [|p' rest]; simpl in *; now rewrite IH.
Qed.

Lemma split_pieces sep s piece :
  In piece (Js.split sep s) -> has_char sep piece = false.
Proof.
  revert piece. induction s as [|c s IH]; intros piece; simpl.
  - intros [<- | []]. reflexivity.
  - destruct (Ascii.eqb c sep) eqn:E.
    + intros [<- | H]; [reflexivity|now apply IH].
    + destruct (Js.split sep s) as [|p rest].
      * intros [<- | []]. simpl. now rewrite E.
      * intros [<- | H].
        -- simpl. rewrite E. apply IH. now left.
        -- apply IH. now right.
Qed.

Lemma searchTerms_In query term :
  In term (searchTerms query) <->
  In term (Js.split space (Js.toLowerCase query)) /\ (2 < String.length term)%nat.
Proof.
  unfold searchTerms. rewrite filter_In. now rewrite Nat.ltb_lt.
Qed.

Lemma orConditions_In terms f :
  In f (orConditions terms) <->
  exists term, In term terms /\
    (f = Pg.ilike Pg.col_name term \/ f = Pg.ilike Pg.col_role term \/
     f = Pg.ilike Pg.col_description term \/ f = Pg.cs Pg.col_skills term).
Proof.
  unfold orConditions. rewrite in_flat_map. split.
  - intros [term [Ht Hf]]. exists term. simpl in Hf. intuition.
  - intros [term [Ht Hf]]. exists term. simpl. intuition.
Qed.

(** *** Patterns *)

Lemma like_any pattern s :
  Pg.like (Pg.any :: pattern) s
  = Pg.like pattern s
    || match s with
       | String _ s' => Pg.like (Pg.any :: pattern) s'
       | EmptyString => false
       end.
Proof. destruct s; reflexivity. Qed.

Lemma like_any_only s : Pg.like [Pg.any] s = true.
Proof.
  induction s as [|c s IH]; [reflexivity|].
  rewrite like_any. now rewrite IH, orb_true_r.
Qed.

Lemma plain_char_is_no_wildcard c :
  Pg.plain_char c = true -> Pg.wildcard_char c = false.
Proof.
  destruct c as [[] [] [] [] [] [] [] []]; vm_compute; intros H;
    reflexivity || discriminate.
Qed.

Lemma plain_char_lower c :
  Pg.plain_char c = true -> Pg.plain_char (Js.lower_char c) = true.
Proof.
  destruct c as [[] [] [] [] [] [] [] []]; vm_compute; intros H;
    reflexivity || discriminate.
Qed.

Lemma plain_lower term : Pg.plain term = true -> Pg.plain (Js.toLowerCase term) = true.
Proof.
  induction term as [|c term IH]; simpl; [reflexivity|].
  intros H. apply andb_true_iff in H as [Hc Ht].
  now rewrite (plain_char_lower c Hc), IH.
Qed.

Lemma plain_readable term : Pg.plain term = true -> Pg.readable term = true.
Proof.
  induction term as [|c term IH]; simpl; [reflexivity|].
  intros H. apply andb_true_iff in H as [Hc Ht]. now rewrite Hc, IH.
Qed.

(** The pattern of a term without wildcards, followed by [%], matches
    the texts the term is a prefix of. *)
Lemma like_plain_prefix term s :
  Pg.plain term = true ->
  Pg.like (Pg.tokens term ++ [Pg.any]) s = String.prefix term s.
Proof.
  revert s. induction term as [|c term IH]; intros s H.
  - simpl Pg.tokens. simpl app. rewrite like_any_only. now destruct s.
  - simpl in H. apply andb_true_iff in H as [Hc Ht].
    pose proof (plain_char_is_no_wildcard c Hc) as Hw.
    unfold Pg.wildcard_char in Hw.
    apply orb_false_iff in Hw as [Hw H95]. simpl Pg.tokens. rewrite Hw, H95.
    destruct s as [|b s]; [reflexivity|]. simpl. rewrite (IH s Ht).
    destruct (ascii_dec c b) as [-> | Hcb].
    + now rewrite Ascii.eqb_refl.
    + destruct (Ascii.eqb_spec b c); [congruence|reflexivity].
Qed.

(** Between two [%], a term without wildcards matches the texts it occurs
    in. *)
Lemma like_plain term s :
  Pg.plain term = true ->
  Pg.like (Pg.any :: Pg.tokens term ++ [Pg.any]) s = Js.includes s term.
Proof.
  intros H. induction s as [|c s IH]; rewrite like_any, like_plain_prefix by exact H.
  - reflexivity.
  - simpl Js.includes. now rewrite IH.
Qed.

Lemma eval_ilike_plain m c term :
  Pg.plain term = true ->
  Pg.eval_filter m (Pg.ilike c term)
  = match Pg.text_column c m with
    | Some v => Js.includes (Js.toLowerCase v) (Js.toLowerCase term)
    | None => false
    end.
Proof.
  intros H. simpl. destruct (Pg.text_column c m) as [v|]; [|reflexivity].
  apply like_plain, plain_lower, H.
Qed.

Lemma eval_cs_skills m term :
  term <> "" ->
  Pg.eval_filter m (Pg.cs Pg.col_skills term) = true <->
  exists l, m_skills m = Some l /\ In term l /\ Js.toLowerCase term <> "null".
Proof.
  intros Hne. simpl. unfold Pg.array_literal.
  destruct (String.eqb_spec term ""); [contradiction|].
  destruct (m_skills m) as [l|].
  - destruct (String.eqb_spec (Js.toLowerCase term) "null") as [E | E]; simpl.
    + split; [discriminate|]. intros [l' [_ [_ H]]]. contradiction.
    + rewrite andb_true_r. rewrite existsb_exists. split.
      * intros [x [Hx Heq]]. apply String.eqb_eq in Heq. subst x.
        exists l. auto.
      * intros [l' [[= <-] [Hin _]]]. exists term. split; [exact Hin|].
        apply String.eqb_refl.
  - split; [discriminate|]. intros [l [H _]]. discriminate.
Qed.

Lemma or_predicate_accepts terms m :
  (forall term, In term terms -> Pg.plain term = true /\ term <> "") ->
  existsb (Pg.eval_filter m) (orConditions terms) = true <->
  exists term, In term terms /\ matches_term m term.
Proof.
  intros Hterms. rewrite existsb_exists. split.
  - intros [f [Hf He]]. apply orConditions_In in Hf as [term [Ht Hf]].
    destruct (Hterms term Ht) as [Hp Hne].
    exists term. split; [exact Ht|]. unfold matches_term.
    destruct Hf as [-> | [-> | [-> | ->]]].
    + rewrite (eval_ilike_plain _ _ _ Hp) in He. now left.
    + rewrite (eval_ilike_plain _ _ _ Hp) in He. right. now left.
    + rewrite (eval_ilike_plain _ _ _ Hp) in He. right. right. left.
      simpl in He. destruct (m_description m) as [d|]; [|discriminate]. now exists d.
    + right. right. right. apply eval_cs_skills in He; assumption.
  - intros [term [Ht Hm]]. destruct (Hterms term Ht) as [Hp Hne].
    destruct Hm as [H | [H | [[d [Hd H]] | H]]].
    + exists (Pg.ilike Pg.col_name term). split.
      * apply orConditions_In. exists term. auto.
      * now rewrite (eval_ilike_plain _ _ _ Hp).
    + exists (Pg.ilike Pg.col_role term). split.
      * apply orConditions_In. exists term. auto.
      * now rewrite (eval_ilike_plain _ _ _ Hp).
    + exists (Pg.ilike Pg.col_description term). split.
      * apply orConditions_In. exists term. auto 6.
      * rewrite (eval_ilike_plain _ _ _ Hp). simpl. now rewrite Hd.
    + exists (Pg.cs Pg.col_skills term). split.
      * apply orConditions_In. exists term. auto 6.
      * apply eval_cs_skills; assumption.
Qed.


Lemma select_members_rows other members teams or_filter n rows row :
  Pg.select_members other members teams or_filter n = inr rows ->
  In row rows ->
  exists m keep, In m members /\ row = Pg.project teams m /\
                 Pg.selection other or_filter = inr keep /\ keep m = true.
Proof.
  unfold Pg.select_members.
  destruct (Pg.selection other or_filter) as [e | keep]; [discriminate|].
  set (ordered := sort_by _ _).
  assert (forall kept, In row (map (Pg.project teams) kept) ->
                       (forall m, In m kept -> In m ordered) ->
                       exists m keep', In m members /\ row = Pg.project teams m /\
                                       @inr string _ keep = inr keep' /\ keep' m = true) as Hk.
  { intros kept Hrow Hsub. apply in_map_iff in Hrow as [m [<- Hm]].
    apply Hsub, sort_by_In, filter_In in Hm as [Hm Hkeep].
    exists m, keep. auto. }
  destruct n as [n|].
  - destruct (Pg.limit n ordered) as [e | kept] eqn:L; [discriminate|].
    intros [= <-] Hrow. apply (Hk kept Hrow).
    apply limit_rows in L as [_ ->]. intros m. apply In_firstn.
  - intros [= <-] Hrow. apply (Hk ordered Hrow). auto.
Qed.

Lemma text_filter_cases query :
  text_filter query = None /\ searchTerms query = [] \/
  text_filter query = Some (orConditions (searchTerms query)) /\ searchTerms query <> [].
Proof.
  unfold text_filter. destruct (searchTerms query) as [|t ts]; [now left|].
  right. split; [reflexivity|discriminate].
Qed.

Lemma orConditions_readable terms :
  (forall term, In term terms -> Pg.plain term = true) ->
  forallb (fun f => Pg.readable (Pg.filter_term f)) (orConditions terms) = true.
Proof.
  intros H. apply forallb_forall. intros f Hf.
  apply orConditions_In in Hf as [term [Ht Hf]].
  destruct Hf as [-> | [-> | [-> | ->]]]; apply plain_readable, H, Ht.
Qed.

(** The rows the table query selects for a query whose terms hold only
    letters and digits. *)
Lemma plain_selection other query keep m :
  (forall term, In term (searchTerms query) -> Pg.plain term = true) ->
  Pg.selection other (text_filter query) = inr keep ->
  keep m = true ->
  searchTerms query = [] \/
  exists term, In term (searchTerms query) /\ matches_term m term.
Proof.
  intros Hp Hsel Hkeep.
  destruct (text_filter_cases query) as [[_ E] | [E _]]; [now left|right].
  rewrite E in Hsel. simpl in Hsel. rewrite (orConditions_readable _ Hp) in Hsel.
  injection Hsel as <-. apply or_predicate_accepts in Hkeep; [exact Hkeep|].
  intros term Ht. split; [now apply Hp|].
  apply searchTerms_In in Ht as [_ Hlen]. intros ->. simpl in Hlen. lia.
Qed.




(** In binary64 the accumulated score and 0.2 times the number of matched
    terms round to the same double, and the cap is reached at exactly five
    matched terms; checked here up to 64 matched terms. *)
Example binary64_text_score :
  forallb (fun n => SFeqb (Binary64.text_score n) (Binary64.claimed_score n))
          (seq 0 65) = true /\
  Binary64.text_score 5 = Binary64.one /\
  SFltb (Binary64.text_score 4) Binary64.one = true.
Proof. repeat split; vm_compute; reflexivity. Qed.

(** * Further properties of the edge function *)

(** ** What a request makes the function do *)

Section Runs.
Variable cosine_distance : vector -> vector -> num.
Variable w : World.

Lemma search_log_shapes query limit :
  let log := fst (search cosine_distance w query limit) in
  (exists v, log = [Call_performSemanticSearch query limit; Backend_ai_run query;
                    Backend_rpc_match_members v limit (1 # 10)]) \/
  log = [Call_performSemanticSearch query limit; Backend_ai_run query;
         Call_performTextSearch query limit;
         Backend_select_members (text_filter query) limit] \/
  (exists v, log = [Call_performSemanticSearch query limit; Backend_ai_run query;
                    Backend_rpc_match_members v limit (1 # 10);
                    Call_performTextSearch query limit;
                    Backend_select_members (text_filter query) limit]).
Proof.
  rewrite search_cases, performSemanticSearch_cases, performTextSearch_cases.
  cbv zeta.
  destruct (ai_run w query) as [v|];
    [destruct (rpc_error w);
     [|destruct (int_argument limit);
       [|destruct (Pg.match_members _ _ _ _ _ _ _)]]|];
    try (destruct (select_error w);
         [|destruct (row_limit w limit); [|destruct (Pg.select_members _ _ _ _ _)]]);
    simpl; eauto.
Qed.

(** The log of a request has one of four shapes: nothing; the embedding of
    the query and one RPC call; the embedding, then the text search with
    its one table query; the embedding, the RPC call, then the text
    search. No backend is called twice, the text embedded is the query, and
    the table query is made only after the semantic search. *)
Theorem handler_log_shapes req :
  let log := fst (handler cosine_distance w req) in
  log = [] \/
  (exists query limit v,
      log = [Call_performSemanticSearch query limit; Backend_ai_run query;
             Backend_rpc_match_members v limit (1 # 10)]) \/
  (exists query limit,
      log = [Call_performSemanticSearch query limit; Backend_ai_run query;
             Call_performTextSearch query limit;
             Backend_select_members (text_filter query) limit]) \/
  (exists query limit v,
      log = [Call_performSemanticSearch query limit; Backend_ai_run query;
             Backend_rpc_match_members v limit (1 # 10);
             Call_performTextSearch query limit;
             Backend_select_members (text_filter query) limit]).
Proof.
  cbv zeta. destruct (search_arguments w req) as [[query limit]|] eqn:S.
  - rewrite (handler_searching _ _ _ _ _ S).
    pose proof (search_log_shapes query limit) as H. cbv zeta in H.
    assert (fst (let (log, o) := search cosine_distance w query limit in
                 match o with
                 | Returned results => (log, success_response w query results)
                 | Thrown error => (log, failure_response w error)
                 end) = fst (search cosine_distance w query limit)) as E.
    { destruct (search _ _ _ _) as [log [rs | e]]; reflexivity. }
    rewrite E. right.
    destruct H as [[v H] | [H | [v H]]]; rewrite H; eauto 7.
  - left. destruct (handler_not_searching cosine_distance w req S) as [[H _] | [_ H]];
      now rewrite H.
Qed.

(** A semantic search that returns is final, also when it returns no
    match: the response is the success response of its results and the
    text search is not run. *)
Theorem semantic_return_is_final req query limit slog results :
  In (Call_performSemanticSearch query limit) (fst (handler cosine_distance w req)) ->
  performSemanticSearch cosine_distance w query limit = (slog, Returned results) ->
  handler cosine_distance w req = (slog, success_response w query results) /\
  (forall q l, ~ In (Call_performTextSearch q l) (fst (handler cosine_distance w req))) /\
  (forall f l, ~ In (Backend_select_members f l) (fst (handler cosine_distance w req))).
Proof.
  intros Hcall Hsem. apply semantic_search_invoked in Hcall.
  rewrite (handler_searching _ _ _ _ _ Hcall), search_cases, Hsem.
  split; [reflexivity|].
  rewrite performSemanticSearch_cases in Hsem.
  destruct (ai_run w query) as [v|]; [|discriminate]. cbv zeta in Hsem.
  assert (slog = [Call_performSemanticSearch query limit; Backend_ai_run query;
                  Backend_rpc_match_members v limit (1 # 10)]) as ->.
  { destruct (rpc_error w); [discriminate|].
    destruct (int_argument limit); [discriminate|].
    destruct (Pg.match_members _ _ _ _ _ _ _); [discriminate|]. now injection Hsem. }
  split; intros a b H; simpl in H; decompose [or] H; discriminate || contradiction.
Qed.
End Runs.

Lemma semantic_return_is_final_witness :
  handler Demo.distance DemoSparse.world (Demo.post "React developer" limit_absent)
  = ([Call_performSemanticSearch "React developer" 10;
      Backend_ai_run "React developer";
      Backend_rpc_match_members [(4 # 5)%Q; (3 # 5)%Q] 10 (1 # 10)],
     success_response DemoSparse.world "React developer" []) /\
  snd (performTextSearch DemoSparse.world "React developer" 10)
  = Returned [text_result ["react"; "developer"]
                (Pg.project (teams DemoSparse.world) Demo.cy)].
Proof.
  split; [|vm_compute; reflexivity].
  refine (proj1 (semantic_return_is_final Demo.distance DemoSparse.world
                   (Demo.post "React developer" limit_absent)
                   "React developer" 10 _ [] _ _)).
  - vm_compute. left. reflexivity.
  - vm_compute. reflexivity.
Defined.

(** ** What of a request matters *)

Lemma trimStart_clean s : starts_clean (Js.trimStart s).
Proof.
  induction s as [|c s IH]; simpl; [exact I|].
  destruct (Js.is_space c) eqn:E; [exact IH|exact E].
Qed.

Lemma trimStart_of_clean s : starts_clean s -> Js.trimStart s = s.
Proof. destruct s as [|c s]; simpl; [reflexivity|]. now intros ->. Qed.

Lemma trimEnd_clean s : starts_clean s -> starts_clean (Js.trimEnd s).
Proof.
  destruct s as [|c s]; simpl; [trivial|]. intros E.
  destruct (Js.trimEnd s); [rewrite E|]; exact E.
Qed.

Lemma trimEnd_idempotent s : Js.trimEnd (Js.trimEnd s) = Js.trimEnd s.
Proof.
  induction s as [|c s IH]; [reflexivity|]. simpl.
  destruct (Js.trimEnd s) as [|c' t] eqn:E.
  - destruct (Js.is_space c) eqn:Sp; [reflexivity|]. simpl. now rewrite Sp.
  - simpl in *. now rewrite IH.
Qed.

Lemma trim_idempotent s : Js.trim (Js.trim s) = Js.trim s.
Proof.
  unfold Js.trim.
  rewrite (trimStart_of_clean (Js.trimEnd (Js.trimStart s))).
  - apply trimEnd_idempotent.
  - apply trimEnd_clean, trimStart_clean.
Qed.

Lemma trim_nonempty_truthy s :
  (3 <= String.length (Js.trim s))%nat -> Js.truthy s = true.
Proof. destruct s; simpl; [lia|reflexivity]. Qed.

Section RequestFacts.
Variable cosine_distance : vector -> vector -> num.
Variable w : World.

(** A POST request with a valid query is read only through its trimmed
    query and through min(limit || 10, 50): two such requests that agree
    on both are answered alike, with the same calls. So white space around
    the query is immaterial, an absent, null or zero limit is the limit 10,
    and a limit above 50 is the limit 50. *)
Theorem handler_reads_trimmed_query_and_capped_limit req1 req2 s1 l1 s2 l2 :
  method req1 = "POST" -> method req2 = "POST" ->
  body req1 = json_value (query_string s1) l1 ->
  body req2 = json_value (query_string s2) l2 ->
  (3 <= String.length (Js.trim s1))%nat ->
  Js.trim s1 = Js.trim s2 ->
  Math_min (limit_or_default l1) 50 = Math_min (limit_or_default l2) 50 ->
  handler cosine_distance w req1 = handler cosine_distance w req2.
Proof.
  intros M1 M2 B1 B2 Hlen Hq Hl.
  assert (search_arguments w req1 = search_arguments w req2) as E.
  { unfold search_arguments. rewrite M1, M2, B1, B2, <- Hq, <- Hl.
    rewrite (trim_nonempty_truthy s1 Hlen).
    rewrite (trim_nonempty_truthy s2) by (rewrite <- Hq; exact Hlen).
    reflexivity. }
  destruct (search_arguments w req1) as [[query limit]|] eqn:S1.
  - rewrite (handler_searching _ _ _ _ _ S1).
    symmetry in E. now rewrite (handler_searching _ _ _ _ _ E).
  - unfold search_arguments in S1. rewrite M1, B1 in S1.
    unfold handler, process. rewrite M1, M2.
    change (String.eqb "POST" "OPTIONS") with false.
    change (String.eqb "POST" "POST") with true. cbn [negb].
    change (String.eqb "POST" "POST") with true in S1.
    destruct (env_set (SUPABASE_URL w)); cbn [andb negb orb] in *; [|reflexivity].
    destruct (env_set (SUPABASE_SERVICE_ROLE_KEY w)); cbn [andb negb orb] in *;
      [|reflexivity].
    rewrite (trim_nonempty_truthy s1 Hlen) in S1. cbn [andb] in S1.
    apply Nat.leb_le in Hlen. rewrite Hlen in S1. discriminate.
Qed.

(** A body that is the JSON value [null] is not rejected as a validation
    error: reading its [query] throws, and the answer is the 500 error
    response, while a body that is not JSON at all is answered with 400.
    Neither reaches a backend. *)
Theorem null_body_is_a_server_error req :
  method req = "POST" ->
  env_set (SUPABASE_URL w) = true ->
  env_set (SUPABASE_SERVICE_ROLE_KEY w) = true ->
  (body req = json_null ->
   fst (handler cosine_distance w req) = [] /\
   status (snd (handler cosine_distance w req)) = 500 /\
   keys (snd (handler cosine_distance w req)) = ["success"; "error"; "timestamp"]) /\
  (body req = invalid_json ->
   handler cosine_distance w req = ([], error_only 400 "Invalid JSON in request body")).
Proof.
  intros M U K. unfold handler, process. rewrite M, U, K.
  change (String.eqb "POST" "OPTIONS") with false.
  change (String.eqb "POST" "POST") with true. cbn [negb orb].
  split; intros ->; simpl; auto.
Qed.
End RequestFacts.

Lemma handler_reads_trimmed_query_and_capped_limit_witness :
  handler Demo.distance Demo.world (Demo.post "  React developer " (limit_number 0))
  = handler Demo.distance Demo.world (Demo.post "React developer" (limit_number 10)).
Proof.
  refine (handler_reads_trimmed_query_and_capped_limit Demo.distance Demo.world
            (Demo.post "  React developer " (limit_number 0))
            (Demo.post "React developer" (limit_number 10))
            "  React developer " (limit_number 0) "React developer" (limit_number 10)
            eq_refl eq_refl eq_refl eq_refl _ _ eq_refl).
  - vm_compute. lia.
  - vm_compute. reflexivity.
Defined.

Lemma null_body_is_a_server_error_witness :
  status (snd (handler Demo.distance Demo.world
                 {| method := "POST"; body := json_null |})) = 500 /\
  status (snd (handler Demo.distance Demo.world
                 {| method := "POST"; body := invalid_json |})) = 400.
Proof.
  destruct (null_body_is_a_server_error Demo.distance Demo.world
              {| method := "POST"; body := json_null |} eq_refl eq_refl eq_refl)
    as [Hnull _].
  destruct (null_body_is_a_server_error Demo.distance Demo.world
              {| method := "POST"; body := invalid_json |} eq_refl eq_refl eq_refl)
    as [_ Hinvalid].
  split; [exact (proj1 (proj2 (Hnull eq_refl)))|].
  now rewrite (Hinvalid eq_refl).
Defined.

(** ** More on [match_members] *)

Lemma StronglySorted_split {A} (R : A -> A -> Prop) n l :
  StronglySorted R l ->
  forall a b, In a (firstn n l) -> In b (skipn n l) -> R a b.
Proof.
  intros H. revert n. induction H as [|x l Hs IH Hx]; intros n a b Ha Hb.
  - destruct n; destruct Ha.
  - destruct n as [|n]; [destruct Ha|]. simpl in Ha, Hb.
    destruct Ha as [<- | Ha].
    + rewrite Forall_forall in Hx. apply Hx.
      rewrite <- (firstn_skipn n l). apply in_or_app. now right.
    + eapply IH; eauto.
Qed.

(** Of the members the scan visits, [match_members] returns the nearest:
    those that pass the WHERE clause split into the returned ones and the
    rest, no returned one is farther from the query vector than one left
    out, in the order of [float8] where NaN is farthest, and nothing is
    left out when the match count covers all of them or is NULL. *)
Theorem match_members_returns_nearest cosine_distance visits members teams q n t out :
  Pg.match_members cosine_distance visits members teams q n (Pg.given t) = inr out ->
  exists kept rest,
    out = map (Pg.select_list teams) kept /\
    Permutation (kept ++ rest)
                (Pg.filter_map (Pg.where_clause cosine_distance q t)
                   (List.filter (visits q) members)) /\
    (forall a b, In a kept -> In b rest -> Pg.le (snd a) (snd b) = true) /\
    (n = Pg.null -> rest = []) /\
    (forall z, n = Pg.given z ->
       Z.of_nat (List.length
                   (Pg.filter_map (Pg.where_clause cosine_distance q t)
                      (List.filter (visits q) members))) <= z ->
       rest = []).
Proof.
  intros H. unfold Pg.match_members in H. cbn [Pg.qualifying] in H.
  set (kept_all := Pg.filter_map (Pg.where_clause cosine_distance q t)
                     (List.filter (visits q) members)) in *.
  destruct (Pg.limit_count n _) as [e | rows] eqn:L; [discriminate|].
  injection H as <-.
  assert (exists k, rows = firstn k (Pg.order_by_distance kept_all) /\
                    (n = Pg.null -> (List.length kept_all <= k)%nat) /\
                    (forall z, n = Pg.given z -> k = Z.to_nat z)) as [k [-> [Hnull Hk]]].
  { destruct n as [| |z]; simpl in L.
    - apply limit_rows in L as [_ ->]. eexists. split; [reflexivity|].
      split; discriminate.
    - injection L as <-. exists (List.length kept_all). split.
      + symmetry. apply firstn_all2. unfold Pg.order_by_distance.
        now rewrite sort_by_length.
      + split; [auto|discriminate].
    - apply limit_rows in L as [_ ->]. eexists. split; [reflexivity|].
      split; [discriminate|]. now intros z' [= <-]. }
  exists (firstn k (Pg.order_by_distance kept_all)),
         (skipn k (Pg.order_by_distance kept_all)).
  split; [reflexivity|]. repeat split.
  - rewrite firstn_skipn. apply Permutation_sym, sort_by_perm.
  - intros a b.
    apply (StronglySorted_split (fun a b => Pg.le (snd a) (snd b) = true)),
      order_by_distance_sorted.
  - intros E. apply skipn_all2. unfold Pg.order_by_distance.
    rewrite sort_by_length. now apply Hnull.
  - intros z E Hlen. apply skipn_all2. unfold Pg.order_by_distance.
    rewrite sort_by_length, (Hk z E). lia.
Qed.

Lemma match_members_returns_nearest_witness :
  exists kept rest,
    [Pg.select_list (teams Demo.world) (Demo.bo, Fin (1 # 25))]
    = map (Pg.select_list (teams Demo.world)) kept /\
    Permutation (kept ++ rest)
                (Pg.filter_map
                   (Pg.where_clause Demo.distance [(4 # 5)%Q; (3 # 5)%Q] (1 # 10))
                   (List.filter (fun _ => true) (members Demo.world))) /\
    (forall a b, In a kept -> In b rest -> Pg.le (snd a) (snd b) = true) /\
    (Pg.given 1 = Pg.null -> rest = []) /\
    (forall z, Pg.given 1 = Pg.given z ->
       Z.of_nat (List.length
                   (Pg.filter_map
                      (Pg.where_clause Demo.distance [(4 # 5)%Q; (3 # 5)%Q] (1 # 10))
                      (List.filter (fun _ => true) (members Demo.world)))) <= z ->
       rest = []).
Proof.
  refine (match_members_returns_nearest Demo.distance (fun _ _ => true)
            (members Demo.world) (teams Demo.world) [(4 # 5)%Q; (3 # 5)%Q]
            (Pg.given 1) (1 # 10)%Q _ _).
  vm_compute. reflexivity.
Defined.

(** ** More on the semantic search *)

Lemma same_score_fin x q : same_score x (Fin q) -> exists s, x = Fin s /\ (s == q)%Q.
Proof. destruct x as [s|]; simpl; [eauto|contradiction]. Qed.

Lemma same_score_nan x : same_score x NaN -> x = NaN.
Proof. destruct x as [s|]; simpl; [contradiction|reflexivity]. Qed.

(** Every result of the semantic search is a visited member with an
    embedding. When the distance between that embedding and the embedding
    of the query is a number, the score is one minus the distance and at
    least 0.1, so the default of [match_score || 0] is not taken; when the
    distance is NaN, the score is NaN. *)
Theorem semantic_results_meet_threshold cosine_distance w query limit log results r :
  performSemanticSearch cosine_distance w query limit = (log, Returned results) ->
  In r results ->
  exists m e v,
    In m (members w) /\ visits w v m = true /\
    m_embedding m = Some e /\ ai_run w query = Some v /\
    id r = m_id m /\
    (forall d, cosine_distance e v = Fin d ->
       exists score, similarity_score r = Fin score /\
                     (score == 1 - d)%Q /\ (1 # 10 <= score)%Q) /\
    (cosine_distance e v = NaN -> similarity_score r = NaN).
Proof.
  intros H Hr.
  apply semantic_results in H as [v [n [rows [k [Hv [_ [Hrows [_ ->]]]]]]]].
  apply in_map_iff in Hr as [md [<- Hmd]].
  destruct (match_members_kept _ _ _ _ _ _ _ md Hrows Hmd)
    as [m [e [Hm [Hvis [He [-> Ht]]]]]].
  exists m, e, v. repeat split; auto.
  - intros d Hd. pose proof (semantic_score (teams w) m (cosine_distance e v)) as Hs.
    rewrite Hd in Hs, Ht. cbn [Pg.one_minus Pg.ge] in Hs, Ht.
    apply same_score_fin in Hs as [score [Hscore Heq]].
    exists score. split; [now rewrite Hd|]. split; [exact Heq|].
    apply Qle_bool_iff in Ht. apply (Qle_trans _ (1 - d)); [exact Ht|].
    apply Qle_lteq. right. now symmetry.
  - intros Hd. pose proof (semantic_score (teams w) m (cosine_distance e v)) as Hs.
    rewrite Hd in Hs |- *. now apply same_score_nan.
Qed.

Lemma semantic_results_meet_threshold_witness :
  exists m e v,
    In m (members Demo.world) /\ visits Demo.world v m = true /\
    m_embedding m = Some e /\
    ai_run Demo.world "React developer" = Some v /\
    2 = m_id m /\
    (forall d, Demo.distance e v = Fin d ->
       exists score, Fin (24 # 25) = Fin score /\
                     (score == 1 - d)%Q /\ (1 # 10 <= score)%Q) /\
    (Demo.distance e v = NaN -> Fin (24 # 25) = NaN).
Proof.
  refine (semantic_results_meet_threshold Demo.distance Demo.world
            "React developer" 5 _ _
            {| id := 2; name := "Bo Lind"; email := "bo@example.com";
               role := "Designer"; description := None;
               skills := Some ["Figma"]; profile_picture := None;
               team := None; similarity_score := Fin (24 # 25) |} _ _).
  - vm_compute. reflexivity.
  - left. reflexivity.
Defined.

(** ** What holds of the scores away from NaN *)

Lemma StronglySorted_within {A} (R : A -> A -> Prop) (P : A -> Prop) l :
  StronglySorted R l -> Forall P l ->
  StronglySorted (fun a b => R a b /\ P a /\ P b) l.
Proof.
  induction 1 as [|x l Hs IH Hx]; intros Hp; [constructor|].
  inversion Hp as [|x' l' Px Pl E]; subst. constructor; [now apply IH|].
  rewrite Forall_forall in *. intros y Hy. auto.
Qed.

(** The text search returns its results in non-increasing order of score,
    every score a number of the interval [0, 1]. *)
Theorem text_results_are_sorted_and_in_range w query limit log results :
  performTextSearch w query limit = (log, Returned results) ->
  descending results /\
  forall r, In r results -> in_unit_interval (similarity_score r).
Proof.
  intros H. split.
  - eapply text_descending, H.
  - intros r. eapply text_range, H.
Qed.

Lemma text_results_are_sorted_and_in_range_witness :
  descending
    (sort_by by_score_desc
       (map (text_result ["react"; "developer"])
          (map (Pg.project (teams Demo.world)) [Demo.ada; Demo.cy]))).
Proof.
  refine (proj1 (text_results_are_sorted_and_in_range Demo.world "React developer" 5
                   _ _ _)).
  vm_compute. reflexivity.
Defined.

(** When no stored embedding has the distance NaN to the embedding of the
    query, the semantic search returns its results in non-increasing order
    of score. *)
Theorem semantic_results_are_sorted_without_nan cosine_distance w query limit log results :
  performSemanticSearch cosine_distance w query limit = (log, Returned results) ->
  (forall m e v, In m (members w) -> m_embedding m = Some e ->
                 ai_run w query = Some v -> cosine_distance e v <> NaN) ->
  descending results.
Proof.
  intros H Hnum.
  apply semantic_results in H as [v [n [rows [k [Hv [_ [Hrows [_ ->]]]]]]]].
  apply sorted_descending.
  apply StronglySorted_map
    with (R := fun a b => Pg.le (snd a) (snd b) = true /\
                          (exists d, snd a = Fin d) /\ (exists d, snd b = Fin d)).
  - intros [m d] [m' d'] [Hle [[x Hx] [y Hy]]]. simpl in Hle, Hx, Hy. subst d d'.
    pose proof (semantic_score (teams w) m (Fin x)) as Sx.
    pose proof (semantic_score (teams w) m' (Fin y)) as Sy.
    cbn [Pg.one_minus] in Sx, Sy.
    apply same_score_fin in Sx as [sx [-> Ex]].
    apply same_score_fin in Sy as [sy [-> Ey]].
    cbn [score_le Pg.le] in *. apply Qle_bool_iff in Hle.
    rewrite Ex, Ey. apply Qplus_le_r, Qopp_le_compat, Hle.
  - apply StronglySorted_within.
    + rewrite Hrows. apply StronglySorted_firstn, order_by_distance_sorted.
    + apply Forall_forall. intros md Hmd.
      destruct (match_members_kept _ _ _ _ _ _ _ md Hrows Hmd)
        as [m [e [Hm [_ [He [-> _]]]]]].
      simpl. destruct (cosine_distance e v) as [d|] eqn:D; [now exists d|].
      destruct (Hnum m e v Hm He Hv D).
Qed.

Lemma semantic_results_are_sorted_without_nan_witness :
  exists a b,
    snd (performSemanticSearch Demo.distance Demo.world "React developer" 5)
    = Returned [a; b] /\
    similarity_score a = Fin (24 # 25) /\ similarity_score b = Fin (4 # 5) /\
    descending [a; b].
Proof.
  eexists. eexists. split; [vm_compute; reflexivity|].
  split; [reflexivity|]. split; [reflexivity|].
  refine (semantic_results_are_sorted_without_nan Demo.distance Demo.world
            "React developer" 5 _ _ _ _).
  - vm_compute. reflexivity.
  - intros m e v [<- | [<- | [<- | []]]] [= <-] [= <-]; discriminate.
Defined.

(** What [match_members] guarantees in the terms of the database: every
    row is a visited member with a non-null embedding that passes the test
    [1 - distance >= t] as [float8] decides it, with that match score and
    distance; the rows stand in ascending distance as [float8] orders it;
    there are at most as many as a match count that is not NULL says. A
    call that leaves the threshold out runs with 0.1, and the RPC call of
    [performSemanticSearch] always passes 0.1. *)
Theorem match_members_keeps_what_passes cosine_distance visits members teams q n t out :
  Pg.match_members cosine_distance visits members teams q n (Pg.given t) = inr out ->
  (forall row, In row out ->
     exists m e, In m members /\ visits q m = true /\ m_embedding m = Some e /\
                 row = Pg.select_list teams (m, cosine_distance e q) /\
                 mr_match_score row = Some (Pg.one_minus (cosine_distance e q)) /\
                 mr_distance row = Some (cosine_distance e q) /\
                 Pg.ge (Pg.one_minus (cosine_distance e q)) t = true) /\
  (forall i j a b, (i < j)%nat ->
     nth_error out i = Some a -> nth_error out j = Some b ->
     exists da db, mr_distance a = Some da /\ mr_distance b = Some db /\
                   Pg.le da db = true) /\
  (forall z, n = Pg.given z -> Z.of_nat (List.length out) <= z) /\
  Pg.match_members cosine_distance visits members teams q n Pg.left_out
    = Pg.match_members cosine_distance visits members teams q n (Pg.given (1 # 10)%Q) /\
  (forall w query limit ev v n' t',
     In ev (fst (performSemanticSearch cosine_distance w query limit)) ->
     ev = Backend_rpc_match_members v n' t' -> t' = (1 # 10)%Q).
Proof.
  intros H.
  pose proof (match_members_rows _ _ _ _ _ _ _ _ H) as [rows [k [-> [Hrows Hk]]]].
  repeat split.
  - intros row Hrow. apply in_map_iff in Hrow as [md [<- Hmd]].
    destruct (match_members_kept _ _ _ _ _ _ _ md Hrows Hmd)
      as [m [e [Hm [Hv [He [-> Ht]]]]]].
    exists m, e. repeat split; auto.
  - intros i j a b Hij Ha Hb.
    assert (StronglySorted
              (fun a b => exists da db,
                   mr_distance a = Some da /\ mr_distance b = Some db /\
                   Pg.le da db = true)
              (map (Pg.select_list teams) rows)) as Hs.
    { apply StronglySorted_map with (R := fun a b => Pg.le (snd a) (snd b) = true).
      - intros [m d] [m' d'] Hd. simpl in Hd. exists d, d'. repeat split; auto.
      - rewrite Hrows. apply StronglySorted_firstn, order_by_distance_sorted. }
    exact (StronglySorted_nth _ _ Hs i j a b Hij Ha Hb).
  - intros z E. destruct (Hk z E) as [Hz ->].
    rewrite length_map, Hrows, length_firstn. lia.
  - intros w query limit ev v n' t' Hev E.
    eapply semantic_log_rpc; eauto.
Qed.

Lemma match_members_keeps_what_passes_witness :
  Pg.match_members Demo.distance (fun _ _ => true) (members Demo.world)
    (teams Demo.world) [(4 # 5)%Q; (3 # 5)%Q] (Pg.given 1) (Pg.given (1 # 10)%Q)
  = inr [Pg.select_list (teams Demo.world) (Demo.bo, Fin (1 # 25))] /\
  Z.of_nat 1 <= 1.
Proof.
  split; [vm_compute; reflexivity|].
  refine (proj1 (proj2 (proj2
    (match_members_keeps_what_passes Demo.distance (fun _ _ => true)
       (members Demo.world) (teams Demo.world)
       [(4 # 5)%Q; (3 # 5)%Q] (Pg.given 1) (1 # 10)%Q [_] _))) 1 eq_refl).
  vm_compute. reflexivity.
Defined.

(** A limit that [Math.min] turns into NaN, such as the string "abc", is
    no limit: the RPC receives a NULL match count, and a semantic search
    that returns then returns every visited member that passes the WHERE
    clause, however many. *)
Theorem limit_that_is_no_number_is_no_limit cosine_distance w req query log results :
  search_arguments w req = Some (query, not_a_number) ->
  performSemanticSearch cosine_distance w query not_a_number = (log, Returned results) ->
  handler cosine_distance w req = (log, success_response w query results) /\
  exists v,
    ai_run w query = Some v /\
    results = map (fun md => semantic_result (Pg.select_list (teams w) md))
                  (Pg.order_by_distance
                     (Pg.filter_map (Pg.where_clause cosine_distance v (1 # 10))
                        (List.filter (visits w v) (members w)))).
Proof.
  intros S H. split.
  - now rewrite (handler_searching _ _ _ _ _ S), search_cases, H.
  - rewrite performSemanticSearch_cases in H.
    destruct (ai_run w query) as [v|]; [|discriminate]. cbv zeta in H.
    destruct (rpc_error w); [discriminate|]. simpl in H.
    injection H as _ <-. exists v. split; [reflexivity|]. now rewrite map_map.
Qed.

Lemma limit_that_is_no_number_is_no_limit_witness :
  response_count
    (snd (handler Demo.distance DemoCrowd.world
            (Demo.post "engineer" (limit_other true not_a_number)))) = Some 51.
Proof.
  destruct (limit_that_is_no_number_is_no_limit Demo.distance DemoCrowd.world
              (Demo.post "engineer" (limit_other true not_a_number)) "engineer"
              (fst (performSemanticSearch Demo.distance DemoCrowd.world "engineer"
                      not_a_number))
              (map (fun md => semantic_result (Pg.select_list [] md))
                 (map (fun i => (DemoCrowd.member i, Fin 0)) (seq 1 51)))
              eq_refl ltac:(vm_compute; reflexivity)) as [Hh _].
  rewrite Hh. reflexivity.
Defined.

(** ** More on the text search *)

Lemma lower_char_idempotent c : Js.lower_char (Js.lower_char c) = Js.lower_char c.
Proof.
  destruct c as [[] [] [] [] [] [] [] []]; vm_compute; reflexivity.
Qed.

Lemma toLowerCase_idempotent s : Js.toLowerCase (Js.toLowerCase s) = Js.toLowerCase s.
Proof.
  induction s as [|c s IH]; simpl; [reflexivity|].
  now rewrite lower_char_idempotent, IH.
Qed.

Lemma toLowerCase_app a b :
  Js.toLowerCase (a ++ b) = Js.toLowerCase a ++ Js.toLowerCase b.
Proof. induction a as [|c a IH]; simpl; [reflexivity|now rewrite IH]. Qed.

Lemma split_lower sep s piece :
  Js.toLowerCase s = s -> In piece (Js.split sep s) -> Js.toLowerCase piece = piece.
Proof.
  revert piece. induction s as [|c s IH]; intros piece Hs; simpl.
  - intros [<- | []]. reflexivity.
  - simpl in Hs. injection Hs as Hc Hs'.
    destruct (Ascii.eqb c sep).
    + intros [<- | H]; [reflexivity|now apply IH].
    + destruct (Js.split sep s) as [|p rest].
      * intros [<- | []]. simpl. now rewrite Hc.
      * intros [<- | H].
        -- simpl. rewrite Hc. f_equal. apply IH; [exact Hs'|now left].
        -- apply IH; [exact Hs'|now right].
Qed.

(** The search terms are in lower case. *)
Lemma searchTerms_lower query term :
  In term (searchTerms query) -> Js.toLowerCase term = term.
Proof.
  intros H. apply searchTerms_In in H as [H _].
  eapply split_lower; [|exact H]. apply toLowerCase_idempotent.
Qed.

Lemma prefix_app t a b : String.prefix t a = true -> String.prefix t (a ++ b) = true.
Proof.
  revert a. induction t as [|c t IH]; intros a.
  - intros _. destruct (a ++ b); reflexivity.
  - destruct a as [|c' a]; simpl; [discriminate|].
    destruct (ascii_dec c c'); [apply IH|discriminate].
Qed.

Lemma prefix_self t b : String.prefix t (t ++ b) = true.
Proof.
  induction t as [|c t IH]; simpl; [destruct b; reflexivity|].
  destruct (ascii_dec c c); [exact IH|contradiction].
Qed.

Lemma includes_app_l a b t : Js.includes a t = true -> Js.includes (a ++ b) t = true.
Proof.
  induction a as [|c a IH]; simpl.
  - rewrite orb_false_r. intros H.
    destruct t; [|discriminate]. destruct b; reflexivity.
  - intros H. apply orb_true_iff in H as [H | H]; apply orb_true_iff.
    + left. exact (prefix_app t (String c a) b H).
    + right. now apply IH.
Qed.

Lemma includes_app_r a b t : Js.includes b t = true -> Js.includes (a ++ b) t = true.
Proof.
  intros H. induction a as [|c a IH]; simpl; [exact H|].
  rewrite IH. apply orb_true_r.
Qed.

Lemma includes_prefix s t : String.prefix t s = true -> Js.includes s t = true.
Proof.
  intros H. destruct s as [|c s].
  - change (String.prefix t "" || false = true). now rewrite H.
  - change (String.prefix t (String c s) || Js.includes s t = true). now rewrite H.
Qed.

Lemma includes_self t b : Js.includes (t ++ b) t = true.
Proof. apply includes_prefix, prefix_self. Qed.

Lemma append_empty_r s : s ++ "" = s.
Proof. induction s as [|c s IH]; simpl; [reflexivity|now rewrite IH]. Qed.

Lemma append_associative a b c : (a ++ b) ++ c = a ++ b ++ c.
Proof. induction a as [|x a IH]; simpl; [reflexivity|now rewrite IH]. Qed.

Lemma join_piece sep pieces p :
  In p pieces -> exists pre post, Js.join sep pieces = pre ++ p ++ post.
Proof.
  induction pieces as [|x pieces IH]; [intros []|].
  intros [<- | H].
  - destruct pieces as [|y pieces].
    + exists "", "". simpl. now rewrite append_empty_r.
    + exists "", (sep ++ Js.join sep (y :: pieces)). reflexivity.
  - destruct (IH H) as [pre [post E]].
    destruct pieces as [|y pieces]; [destruct H|].
    exists (x ++ sep ++ pre), post.
    change (Js.join sep (x :: y :: pieces))
      with (x ++ sep ++ Js.join sep (y :: pieces)).
    rewrite E. now rewrite !append_associative.
Qed.

(** A term found in one lower-cased piece is found in the lower-cased
    join of the pieces. *)
Lemma includes_join sep pieces p t :
  In p pieces -> Js.includes (Js.toLowerCase p) t = true ->
  Js.includes (Js.toLowerCase (Js.join sep pieces)) t = true.
Proof.
  intros Hp Ht. destruct (join_piece sep pieces p Hp) as [pre [post ->]].
  rewrite !toLowerCase_app. apply includes_app_r, includes_app_l, Ht.
Qed.

Lemma includes_refl t : Js.includes t t = true.
Proof.
  pose proof (includes_self t "") as H. now rewrite append_empty_r in H.
Qed.

(** A member a lower-case term of letters and digits selects holds that
    term in its text. *)
Lemma matched_member_holds_term teams m term :
  Js.toLowerCase term = term ->
  matches_term m term ->
  Js.includes (memberText (Pg.project teams m)) term = true.
Proof.
  intros Hlow Hm. unfold memberText.
  cbn [Pg.project s_name s_role s_description s_skills].
  destruct Hm as [H | [H | [[d [Hd H]] | [l [Hl [H _]]]]]]; rewrite ?Hlow in H.
  - apply includes_join with (p := m_name m); [|exact H].
    apply in_or_app. left. now left.
  - apply includes_join with (p := m_role m); [|exact H].
    apply in_or_app. left. right. now left.
  - apply includes_join with (p := d); [|exact H].
    rewrite Hd. apply in_or_app. left. right. right. now left.
  - apply includes_join with (p := term).
    + rewrite Hl. apply in_or_app. now right.
    + rewrite Hlow. apply includes_refl.
Qed.

(** When the query has a search term and its terms hold only letters and
    digits, every member the text search returns scores at least 0.2:
    whatever made the database select it, a name, role or description
    holding a term or a skill equal to one, is also a hit of the scoring.
    A term with a wildcard can select a member that scores 0. *)
Theorem text_results_have_a_hit w query limit log results r :
  performTextSearch w query limit = (log, Returned results) ->
  searchTerms query <> [] ->
  (forall term, In term (searchTerms query) -> Pg.plain term = true) ->
  In r results ->
  exists score, similarity_score r = Fin score /\ (2 # 10 <= score)%Q.
Proof.
  intros H Hterms Hplain Hr. apply text_results in H as [n [rows [_ [Hsel ->]]]].
  apply sort_by_In, in_map_iff in Hr as [row [<- Hrow]].
  destruct (select_members_rows _ _ _ _ _ _ _ Hsel Hrow)
    as [m [keep [_ [-> [Hk Hkm]]]]].
  destruct (plain_selection _ _ _ _ Hplain Hk Hkm) as [E | [term [Hterm Hm]]];
    [contradiction|].
  pose proof (matched_member_holds_term (teams w) m term
                (searchTerms_lower _ _ Hterm) Hm) as Hinc.
  eexists. split; [reflexivity|]. unfold text_score.
  apply Q.min_glb; [|discriminate].
  rewrite accumulate_count, Qplus_0_l.
  assert (1 <= Z.of_nat (List.length
                 (List.filter (Js.includes (memberText (Pg.project (teams w) m)))
                              (searchTerms query)))) as Hcount.
  { assert (In term (List.filter (Js.includes (memberText (Pg.project (teams w) m)))
                                 (searchTerms query))) as Hin
        by (apply filter_In; split; assumption).
    destruct (List.filter _ _); [destruct Hin|]. simpl List.length. lia. }
  apply (Qle_trans _ ((2 # 10) * inject_Z 1)); [discriminate|].
  apply Qmult_le_l; [reflexivity|]. now rewrite <- Zle_Qle.
Qed.

Lemma text_results_have_a_hit_witness :
  (exists score, Fin 0.40 = Fin score /\ (2 # 10 <= score)%Q) /\
  map similarity_score
    (match snd (performTextSearch Demo.world "a_a" 5) with
     | Returned results => results
     | Thrown _ => []
     end) = [Fin 0].
Proof.
  split; [|vm_compute; reflexivity].
  refine (text_results_have_a_hit Demo.world "React developer" 5 _ _
            {| id := 1; name := "Ada Park"; email := "ada@example.com";
               role := "React developer"; description := Some "Builds the web client";
               skills := Some ["typescript"; "css"]; profile_picture := None;
               team := Some "Web"; similarity_score := Fin 0.40 |} _ _ _ _).
  - vm_compute. reflexivity.
  - vm_compute. discriminate.
  - intros term. vm_compute. intros [<- | [<- | []]]; reflexivity.
  - left. reflexivity.
Defined.

Lemma sort_by_already_ordered {A} (before : A -> A -> bool) l :
  (forall x y, In x l -> In y l -> before x y = true) -> sort_by before l = l.
Proof.
  induction l as [|x l IH]; intros H; simpl; [reflexivity|].
  rewrite IH by (intros; apply H; now right).
  destruct l as [|y l]; simpl; [reflexivity|].
  rewrite H; [reflexivity|now left|right; now left].
Qed.

(** A query without a search term, every word of it being at most two
    characters long, makes the text search ask for the members without
    any filter: it returns the first [limit] members in name order,
    whoever they are, each with score 0. *)
Theorem text_search_without_terms w query limit log results :
  searchTerms query = [] ->
  performTextSearch w query limit = (log, Returned results) ->
  log = [Call_performTextSearch query limit; Backend_select_members None limit] /\
  (forall n : Z, limit = n ->
     results = map (fun m => text_result [] (Pg.project (teams w) m))
                   (firstn (Z.to_nat n)
                      (sort_by (fun a b => String.leb (m_name a) (m_name b))
                               (members w)))) /\
  (exists rows,
     results = map (fun m => text_result [] (Pg.project (teams w) m)) rows /\
     forall m, In m rows -> In m (members w)) /\
  (forall r, In r results -> similarity_score r = Fin 0).
Proof.
  intros Hterms H.
  assert (text_filter query = None) as Hf by (unfold text_filter; now rewrite Hterms).
  rewrite performTextSearch_cases in H. cbv zeta in H. rewrite Hf, Hterms in H.
  destruct (select_error w); [discriminate|].
  destruct (row_limit w limit) as [e | n] eqn:Hn; [discriminate|].
  destruct (Pg.select_members _ _ _ _ _) as [e | rows] eqn:Hsel; [discriminate|].
  injection H as <- <-. split; [reflexivity|].
  unfold Pg.select_members in Hsel. cbn [Pg.selection] in Hsel.
  rewrite filter_true in Hsel.
  set (ordered := sort_by (fun a b => String.leb (m_name a) (m_name b)) (members w)) in *.
  assert (forall kept r,
             In r (map (text_result []) (map (Pg.project (teams w)) kept)) ->
             similarity_score r = Fin 0) as Hzero.
  { intros kept r Hr. apply in_map_iff in Hr as [row [<- _]]. reflexivity. }
  assert (forall kept,
             sort_by by_score_desc (map (text_result []) (map (Pg.project (teams w)) kept))
             = map (fun m => text_result [] (Pg.project (teams w) m)) kept) as Hsort.
  { intros kept. rewrite sort_by_already_ordered; [apply map_map|].
    intros x y Hx Hy. unfold by_score_desc.
    now rewrite (Hzero kept x Hx), (Hzero kept y Hy). }
  assert (exists kept, rows = map (Pg.project (teams w)) kept /\
                       (forall m, In m kept -> In m (members w)) /\
                       (forall z, n = Some z -> kept = firstn (Z.to_nat z) ordered))
    as [kept [-> [Hsub Hcut]]].
  { destruct n as [z|].
    - destruct (Pg.limit z ordered) as [e | kept] eqn:L; [discriminate|].
      injection Hsel as <-. apply limit_rows in L as [_ ->].
      eexists. split; [reflexivity|]. split.
      + intros m Hm. apply In_firstn in Hm. now apply sort_by_In in Hm.
      + now intros z' [= <-].
    - injection Hsel as <-. exists ordered. split; [reflexivity|]. split.
      + intros m Hm. now apply sort_by_In in Hm.
      + discriminate. }
  rewrite Hsort. split; [|split].
  - intros z ->. simpl in Hn. injection Hn as <-. now rewrite (Hcut z eq_refl).
  - exists kept. split; [reflexivity|exact Hsub].
  - intros r Hr. apply (Hzero kept). now rewrite map_map.
Qed.

Lemma text_search_without_terms_witness :
  fst (performTextSearch Demo.world "ux ui" 2)
  = [Call_performTextSearch "ux ui" 2; Backend_select_members None 2] /\
  map name
    (map (fun m => text_result [] (Pg.project (teams Demo.world) m))
       (firstn (Z.to_nat 2)
          (sort_by (fun a b => String.leb (m_name a) (m_name b)) (members Demo.world))))
  = ["Ada Park"; "Bo Lind"].
Proof.
  split; [|vm_compute; reflexivity].
  refine (proj1 (text_search_without_terms Demo.world "ux ui" 2
                   (fst (performTextSearch Demo.world "ux ui" 2)) _ eq_refl _)).
  vm_compute. reflexivity.
Defined.

(** The skills filter compares whole skills with lower-case terms, so it
    can only ever match a skill written in lower case: a member whose
    skills all hold an upper-case letter is never selected through its
    skills, whatever the query. *)
Theorem capitalised_skills_are_never_matched query m l term :
  m_skills m = Some l ->
  (forall skill, In skill l -> Js.toLowerCase skill <> skill) ->
  In term (searchTerms query) ->
  Pg.eval_filter m (Pg.cs Pg.col_skills term) = false.
Proof.
  intros Hl Hcap Hterm.
  destruct (Pg.eval_filter m (Pg.cs Pg.col_skills term)) eqn:E; [|reflexivity].
  apply eval_cs_skills in E as [l' [Hl' [Hin _]]].
  - rewrite Hl in Hl'. injection Hl' as <-.
    destruct (Hcap term Hin). eapply searchTerms_lower, Hterm.
  - apply searchTerms_In in Hterm as [_ Hlen]. intros ->. simpl in Hlen. lia.
Qed.

Lemma capitalised_skills_are_never_matched_witness :
  Pg.eval_filter Demo.bo (Pg.cs Pg.col_skills "figma") = false.
Proof.
  refine (capitalised_skills_are_never_matched "Figma" Demo.bo ["Figma"] "figma"
            eq_refl _ _).
  - intros skill [<- | []]. vm_compute. discriminate.
  - vm_compute. left. reflexivity.
Defined.

(** ** Ties *)

Section Stable.
Context {A : Type} (before : A -> A -> bool) (p : A -> bool).
Hypothesis passes_others :
  forall x y, p x = true -> before x y = false -> p y = false.

Lemma insert_by_filter x l :
  List.filter p (insert_by before x l) = List.filter p (x :: l).
Proof.
  induction l as [|y l IH]; [reflexivity|]. simpl insert_by.
  destruct (before x y) eqn:E; [reflexivity|].
  simpl in *. rewrite IH. destruct (p x) eqn:Px; [|reflexivity].
  now rewrite (passes_others x y Px E).
Qed.

Lemma sort_by_filter l : List.filter p (sort_by before l) = List.filter p l.
Proof.
  induction l as [|x l IH]; [reflexivity|]. simpl sort_by.
  rewrite insert_by_filter. simpl. now rewrite IH.
Qed.
End Stable.

(** Sorting by score keeps ties in the order the database delivered the
    rows, which is the order of the names: the results of any one score
    are the rows of that score, in their order. *)
Theorem text_results_keep_ties_in_row_order w query limit log results :
  performTextSearch w query limit = (log, Returned results) ->
  exists n rows,
    row_limit w limit = inr n /\
    Pg.select_members (other_filter w) (members w) (teams w) (text_filter query) n
      = inr rows /\
    forall score,
      List.filter (has_score score) results
      = List.filter (has_score score) (map (text_result (searchTerms query)) rows).
Proof.
  intros H. apply text_results in H as [n [rows [Hn [Hsel ->]]]].
  exists n, rows. split; [exact Hn|]. split; [exact Hsel|]. intros score.
  apply sort_by_filter. intros x y Hx Hb. unfold by_score_desc in Hb.
  unfold has_score in *.
  destruct (similarity_score x) as [a|]; [|discriminate].
  destruct (similarity_score y) as [b|]; [|reflexivity].
  apply Qeq_bool_iff in Hx.
  destruct (Qeq_bool b score) eqn:Hy; [|reflexivity].
  apply Qeq_bool_iff in Hy.
  assert (b <= a)%Q as Hle by (rewrite Hx, Hy; apply Qle_refl).
  apply Qle_bool_iff in Hle. congruence.
Qed.

Lemma text_results_keep_ties_in_row_order_witness :
  exists n rows,
    row_limit Demo.world 5 = inr n /\
    Pg.select_members (other_filter Demo.world) (members Demo.world) (teams Demo.world)
      (text_filter "React developer") n = inr rows /\
    forall score,
      List.filter (has_score score)
        (sort_by by_score_desc
           (map (text_result (searchTerms "React developer"))
              (map (Pg.project (teams Demo.world)) [Demo.ada; Demo.cy])))
      = List.filter (has_score score)
                    (map (text_result (searchTerms "React developer")) rows).
Proof.
  refine (text_results_keep_ties_in_row_order Demo.world "React developer" 5 _ _ _).
  vm_compute. reflexivity.
Defined.

(** * The search page *)

Section PageFacts.
Variable cosine_distance : vector -> vector -> num.
Variable w : World.

Lemma handler_log_from_search req ev :
  In ev (fst (handler cosine_distance w req)) ->
  exists query limit,
    search_arguments w req = Some (query, limit) /\
    In ev (fst (search cosine_distance w query limit)).
Proof.
  intros H. destruct (search_arguments w req) as [[query limit]|] eqn:S.
  - exists query, limit. split; [reflexivity|].
    rewrite (handler_searching _ _ _ _ _ S) in H.
    destruct (search _ _ _ _) as [log [rs | e]]; exact H.
  - destruct (handler_not_searching cosine_distance w req S) as [[E _] | [_ E]];
      rewrite E in H; destruct H.
Qed.

(** What a POST request is answered with. *)
Lemma post_outcomes req :
  method req = "POST" ->
  (exists query results,
      snd (handler cosine_distance w req) = success_response w query results) \/
  (exists error, snd (handler cosine_distance w req) = failure_response w error) \/
  (exists message, snd (handler cosine_distance w req) = error_only 400 message).
Proof.
  intros HP. destruct (search_arguments w req) as [[query limit]|] eqn:S.
  - rewrite (handler_searching _ _ _ _ _ S).
    destruct (search _ _ _ _) as [log [rs | e]]; simpl; eauto.
  - clear S. unfold handler, process. rewrite HP.
    change (String.eqb "POST" "OPTIONS") with false.
    change (String.eqb "POST" "POST") with true. cbn [negb].
    destruct (negb (env_set (SUPABASE_URL w)) || _); [simpl; eauto|].
    destruct (body req) as [| |[| |s] l]; simpl; eauto.
    destruct (negb (Js.truthy s)); [simpl; eauto|].
    destruct (String.length (Js.trim s) <? 3)%nat; [simpl; eauto|].
    unfold bind. destruct (search _ _ _ _) as [log [rs | e]]; simpl; eauto.
Qed.

(** The page's [try] block, by cases on the response. *)
Lemma request_results_cases query :
  Page.request_results cosine_distance w None query
  = let (log, response) := handler cosine_distance w (page_request query) in
    match response_results response with
    | Some results => (log, Returned results)
    | None => (log, Thrown (JsError ("Search failed: " ++ Page.decimal (status response))))
    end.
Proof.
  unfold Page.request_results, Page.fetch. fold (page_request query).
  destruct (post_outcomes (page_request query) eq_refl)
    as [[q [rs E]] | [[e E] | [msg E]]];
    destruct (handler cosine_distance w (page_request query)) as [log response];
    simpl in E; subst response; simpl; now rewrite app_nil_r.
Qed.

(** Once a search for a query of at least 3 characters has settled, with
    the connection up, the page is no longer searching and shows either
    the results of the response and no error, or no results and the error
    "Search failed: 400" or "Search failed: 500". The error text of the
    function's response is never shown. *)
Theorem page_shows_results_or_a_status query st :
  (3 <= String.length query)%nat ->
  let st' := snd (Page.performSearch cosine_distance w None query st) in
  Page.isSearching st' = false /\ Page.hasSearched st' = true /\
  ((response_results (snd (handler cosine_distance w (page_request query)))
    = Some (Page.searchResults st') /\ Page.searchError st' = None) \/
   (Page.searchResults st' = [] /\
    (Page.searchError st' = Some "Search failed: 400" \/
     Page.searchError st' = Some "Search failed: 500"))).
Proof.
  intros Hlen. cbv zeta. unfold Page.performSearch.
  apply Nat.ltb_ge in Hlen. rewrite Hlen, request_results_cases.
  destruct (post_outcomes (page_request query) eq_refl)
    as [[q [rs E]] | [[e E] | [msg E]]];
    destruct (handler cosine_distance w (page_request query)) as [log response];
    simpl in E; subst response; simpl; auto 6.
Qed.


(** Whatever is typed, the function is asked for the trimmed query with
    the limit 10, and the page ends up with at most 10 results. *)
Theorem page_asks_for_ten offline query st :
  let run := Page.performSearch cosine_distance w offline query st in
  (forall ev, In ev (fst run) ->
     (forall l, event_limit ev = Some l -> l = 10) /\
     (forall q l, ev = Call_performSemanticSearch q l \/ ev = Call_performTextSearch q l ->
                  q = Js.trim query)) /\
  (List.length (Page.searchResults (snd run)) <= 10)%nat.
Proof.
  cbv zeta. unfold Page.performSearch.
  destruct (String.length query <? 3)%nat;
    [simpl; repeat split; try tauto; try lia|].
  destruct offline as [message|];
    [simpl; repeat split; try tauto; try lia|].
  rewrite request_results_cases.
  destruct (handler cosine_distance w (page_request query)) as [log response] eqn:H.
  assert (forall ev, In ev log ->
            (forall l, event_limit ev = Some l -> l = 10) /\
            (forall q l, ev = Call_performSemanticSearch q l \/
                         ev = Call_performTextSearch q l -> q = Js.trim query)) as Hlog.
  { intros ev Hev.
    assert (In ev (fst (handler cosine_distance w (page_request query)))) as Hin
        by (now rewrite H).
    apply handler_log_from_search in Hin as [q0 [l0 [S Hin]]].
    assert (q0 = Js.trim query /\ l0 = 10) as [-> ->].
    { unfold search_arguments, page_request in S. cbn [method body] in S.
      destruct (_ && _ && _); [|discriminate].
      destruct (_ && _); [|discriminate].
      rewrite trim_idempotent in S. injection S as <- <-. now split. }
    split.
    - intros l Hl. eapply search_log_limit; eauto.
    - intros q l Hq. pose proof (search_log_shapes cosine_distance w (Js.trim query) 10) as Hs.
      cbv zeta in Hs.
      destruct Hs as [[v Hs] | [Hs | [v Hs]]]; rewrite Hs in Hin; simpl in Hin;
        destruct Hq as [-> | ->]; decompose [or] Hin; try discriminate;
        try contradiction;
        match goal with E : _ = _ |- _ => now injection E end. }
  destruct (response_results response) as [results|] eqn:R; simpl;
    [|repeat split; try apply Hlog; try lia; assumption].
  assert (response_results (snd (handler cosine_distance w (page_request query)))
          = Some results) as R' by (now rewrite H).
  split; [exact Hlog|].
  pose proof (handler_result_length _ _ _ _ 10 R' eq_refl). lia.
Qed.
End PageFacts.

Lemma page_shows_results_or_a_status_witness :
  Page.isSearching
    (snd (Page.performSearch Demo.distance Demo.world_down None
            "React developer" fresh_page)) = false /\
  Page.searchError
    (snd (Page.performSearch Demo.distance Demo.world_down None
            "React developer" fresh_page)) = Some "Search failed: 500".
Proof.
  destruct (page_shows_results_or_a_status Demo.distance Demo.world_down
              "React developer" fresh_page ltac:(vm_compute; lia))
    as [Hsearching _].
  split; [exact Hsearching|]. vm_compute. reflexivity.
Defined.


(** * Choosing and uploading a profile picture *)

Lemma handleFileSelect_rejects url file st :
  acceptable file = false ->
  exists message,
    Upload.handleFileSelect url (Some file) st = Upload.with_error st message.
Proof.
  unfold acceptable, Upload.handleFileSelect. intros H.
  destruct (existsb _ Upload.allowedTypes); cbn [negb andb] in *; [|eauto].
  apply Z.leb_gt in H. apply Z.ltb_lt in H. rewrite H. eauto.
Qed.

Lemma handleFileSelect_accepts url file st :
  acceptable file = true ->
  Upload.handleFileSelect url (Some file) st
  = {| Upload.selectedFile := Some file;
       Upload.previewUrl := Some (url file);
       Upload.uploadError := None;
       Upload.isUploading := Upload.isUploading st;
       Upload.uploadSuccess := false |}.
Proof.
  unfold acceptable, Upload.handleFileSelect. intros H.
  apply andb_true_iff in H as [Ht Hs]. rewrite Ht. cbn [negb].
  apply Z.leb_le in Hs. destruct (Z.ltb_spec Upload.maxSize (Upload.file_size file));
    [lia|reflexivity].
Qed.

(** Once the bucket has taken the file, every failure of a later step,
    no public URL or a refused update, leaves the file in the bucket under
    its path and the members table as it was; the page keeps the file
    selected, shows an error and is no longer uploading. *)
Theorem failed_upload_leaves_the_object sv user_id file st b :
  Upload.selectedFile st = Some file ->
  Upload.upload_error sv = None ->
  Upload.uploadError (fst (Upload.handleFileUpload sv (Some user_id) st b)) <> None ->
  let st' := fst (Upload.handleFileUpload sv (Some user_id) st b) in
  let b' := snd (Upload.handleFileUpload sv (Some user_id) st b) in
  In (Upload.filePath user_id (Upload.date_now sv) file, file) (Upload.objects b') /\
  Upload.table b' = Upload.table b /\
  Upload.selectedFile st' = Some file /\
  Upload.isUploading st' = false /\
  Upload.uploadSuccess st' = Upload.uploadSuccess st.
Proof.
  intros Hsel Hup. cbv zeta. unfold Upload.handleFileUpload, Upload.upload_steps.
  rewrite Hsel, Hup.
  destruct (Upload.publicUrl sv _) as [url|]; [|simpl; auto 6].
  destruct (negb (Js.truthy url)); [simpl; auto 6|].
  destruct (Upload.update_error sv); [simpl; auto 6|].
  simpl. intros H. now destruct H.
Qed.

Lemma failed_upload_leaves_the_object_witness :
  In ("profiles/3-1750935698000.png", DemoUpload.photo)
     (Upload.objects
        (snd (Upload.handleFileUpload DemoUpload.services (Some 3)
                (Upload.handleFileSelect DemoUpload.blob_url (Some DemoUpload.photo)
                   DemoUpload.idle)
                DemoUpload.backend))) /\
  Upload.table
    (snd (Upload.handleFileUpload DemoUpload.services (Some 3)
            (Upload.handleFileSelect DemoUpload.blob_url (Some DemoUpload.photo)
               DemoUpload.idle)
            DemoUpload.backend))
  = [Demo.cy; Demo.ada].
Proof.
  destruct (failed_upload_leaves_the_object DemoUpload.services 3 DemoUpload.photo
              (Upload.handleFileSelect DemoUpload.blob_url (Some DemoUpload.photo)
                 DemoUpload.idle)
              DemoUpload.backend eq_refl eq_refl ltac:(vm_compute; discriminate))
    as [Hobj [Htable _]].
  split; [exact Hobj|exact Htable].
Defined.

(** A file that is refused does not replace the file chosen before: the
    earlier file stays selected with its preview beside the error message,
    and an upload started then sends the earlier file. *)
Theorem refused_file_keeps_the_earlier_one url earlier refused st :
  acceptable earlier = true ->
  acceptable refused = false ->
  let st2 := Upload.handleFileSelect url (Some refused)
               (Upload.handleFileSelect url (Some earlier) st) in
  Upload.selectedFile st2 = Some earlier /\
  Upload.previewUrl st2 = Some (url earlier) /\
  Upload.uploadError st2 <> None /\
  forall sv user_id b,
    Upload.upload_error sv = None ->
    In (Upload.filePath user_id (Upload.date_now sv) earlier, earlier)
       (Upload.objects (snd (Upload.handleFileUpload sv (Some user_id) st2 b))).
Proof.
  intros Ha Hr. cbv zeta. rewrite (handleFileSelect_accepts url earlier st Ha).
  destruct (handleFileSelect_rejects url refused
              {| Upload.selectedFile := Some earlier;
                 Upload.previewUrl := Some (url earlier);
                 Upload.uploadError := None;
                 Upload.isUploading := Upload.isUploading st;
                 Upload.uploadSuccess := false |} Hr) as [message ->].
  repeat split; try discriminate.
  intros sv user_id b Hup.
  unfold Upload.handleFileUpload, Upload.upload_steps, Upload.with_error.
  cbn [Upload.selectedFile]. rewrite Hup.
  destruct (Upload.publicUrl sv _) as [u|]; [|simpl; auto].
  destruct (negb (Js.truthy u)); [simpl; auto|].
  destruct (Upload.update_error sv); simpl; auto.
Qed.

Lemma refused_file_keeps_the_earlier_one_witness :
  Upload.selectedFile
    (Upload.handleFileSelect DemoUpload.blob_url (Some DemoUpload.notes)
       (Upload.handleFileSelect DemoUpload.blob_url (Some DemoUpload.photo)
          DemoUpload.idle)) = Some DemoUpload.photo.
Proof.
  exact (proj1 (refused_file_keeps_the_earlier_one DemoUpload.blob_url
                  DemoUpload.photo DemoUpload.notes DemoUpload.idle eq_refl eq_refl)).
Defined.

Lemma split_without_separator sep s :
  has_char sep s = false -> Js.split sep s = [s].
Proof.
  induction s as [|c s IH]; simpl; [reflexivity|].
  destruct (Ascii.eqb c sep); [discriminate|]. simpl. intros H. now rewrite IH.
Qed.

Lemma split_last_suffix sep s :
  exists pre, s = pre ++ last (Js.split sep s) "".
Proof.
  induction s as [|c s [pre IH]]; [now exists ""|]. simpl Js.split.
  pose proof (split_nonempty sep s) as Hne.
  pose proof (join_split sep s) as J.
  destruct (Js.split sep s) as [|p rest]; [contradiction|].
  destruct (Ascii.eqb c sep).
  - exists (String c pre).
    change (last ("" :: p :: rest) "") with (last (p :: rest) "").
    cbn [append]. f_equal. exact IH.
  - destruct rest as [|p' rest].
    + exists "". simpl in J. now subst p.
    + exists (String c pre).
      change (last (String c p :: p' :: rest) "") with (last (p :: p' :: rest) "").
      cbn [append]. f_equal. exact IH.
Qed.

(** The extension taken from a file name is the end of the name after its
    last dot and holds no dot; a name without a dot is its own extension,
    so that a file called notes is stored under a path ending in .notes. *)
Theorem extension_is_the_last_piece file :
  (exists pre, Upload.file_name file = pre ++ Upload.fileExtension file) /\
  has_char "."%char (Upload.fileExtension file) = false /\
  (has_char "."%char (Upload.file_name file) = false ->
   Upload.fileExtension file = Upload.file_name file).
Proof.
  unfold Upload.fileExtension. repeat split.
  - apply split_last_suffix.
  - apply (split_pieces "."%char (Upload.file_name file)).
    pose proof (split_nonempty "."%char (Upload.file_name file)) as Hne.
    destruct (Js.split "."%char (Upload.file_name file)) as [|p rest];
      [contradiction|].
    apply (@exists_last _ (p :: rest)) in Hne as [l [x E]].
    rewrite E, last_last. apply in_or_app. right. now left.
  - intros H. now rewrite split_without_separator.
Qed.

Lemma extension_is_the_last_piece_witness :
  Upload.fileExtension DemoUpload.notes = Upload.file_name DemoUpload.notes.
Proof.
  exact (proj2 (proj2 (extension_is_the_last_piece DemoUpload.notes)) eq_refl).
Defined.

(** * Editing the skills *)

Lemma not_listed x (l : list string) :
  existsb (String.eqb x) l = false <-> ~ In x l.
Proof.
  split.
  - intros H Hin. assert (existsb (String.eqb x) l = true) as E; [|congruence].
    apply existsb_exists. exists x. split; [exact Hin|apply String.eqb_refl].
  - intros H. destruct (existsb (String.eqb x) l) eqn:E; [|reflexivity].
    apply existsb_exists in E as [y [Hy Heq]]. apply String.eqb_eq in Heq.
    now subst.
Qed.

Lemma remove_absent x (l : list string) :
  ~ In x l -> Skills.handleRemoveSkill x l = l.
Proof.
  unfold Skills.handleRemoveSkill. induction l as [|y l IH]; intros H; [reflexivity|].
  simpl. destruct (String.eqb_spec y x) as [-> | Hne].
  - destruct H. now left.
  - simpl. rewrite IH; [reflexivity|]. intros Hin. apply H. now right.
Qed.

(** Adding and removing keep the skill list tidy: no skill twice, none
    blank, none with white space around it. *)
Theorem skill_edits_keep_the_list_tidy newSkill skillToRemove editSkills :
  Skills.tidy editSkills ->
  Skills.tidy (fst (Skills.handleAddSkill newSkill editSkills)) /\
  Skills.tidy (Skills.handleRemoveSkill skillToRemove editSkills).
Proof.
  intros [Hnd Hall]. split.
  - unfold Skills.handleAddSkill.
    destruct (Js.truthy (Js.trim newSkill)) eqn:T; cbn [andb]; [|now split].
    destruct (existsb _ editSkills) eqn:E; cbn [negb fst]; [now split|].
    apply not_listed in E. split.
    + apply NoDup_app; [exact Hnd|repeat constructor; intros []|].
      intros x Hx [<- | []]. contradiction.
    + intros skill Hin. apply in_app_or in Hin as [Hin | [<- | []]]; [now apply Hall|].
      split; [apply trim_idempotent|]. intros Hempty. now rewrite Hempty in T.
  - unfold Skills.handleRemoveSkill. split.
    + now apply NoDup_filter.
    + intros skill Hin. apply filter_In in Hin as [Hin _]. now apply Hall.
Qed.

Lemma skill_edits_keep_the_list_tidy_witness :
  Skills.tidy (fst (Skills.handleAddSkill "  css " ["sql"])) /\
  Skills.tidy (Skills.handleRemoveSkill "sql" ["sql"]).
Proof.
  refine (skill_edits_keep_the_list_tidy "  css " "sql" ["sql"] _).
  split; [repeat constructor; simpl; tauto|].
  intros skill [<- | []]. split; [reflexivity|discriminate].
Defined.

(** Removing a skill that has just been added gives the list back, and
    adding a skill that is already listed, or a blank one, changes
    nothing. *)
Theorem added_skill_can_be_removed newSkill editSkills :
  (~ In (Js.trim newSkill) editSkills ->
   Skills.handleRemoveSkill (Js.trim newSkill)
     (fst (Skills.handleAddSkill newSkill editSkills)) = editSkills) /\
  (In (Js.trim newSkill) editSkills \/ Js.trim newSkill = "" ->
   Skills.handleAddSkill newSkill editSkills = (editSkills, newSkill)).
Proof.
  split.
  - intros Hnew. unfold Skills.handleAddSkill.
    destruct (Js.truthy (Js.trim newSkill) && _); cbn [fst];
      [|now apply remove_absent].
    unfold Skills.handleRemoveSkill. rewrite filter_app. simpl.
    rewrite String.eqb_refl. simpl. rewrite app_nil_r.
    now apply remove_absent.
  - intros [Hin | Hblank]; unfold Skills.handleAddSkill.
    + assert (existsb (String.eqb (Js.trim newSkill)) editSkills = true) as ->.
      { apply existsb_exists. exists (Js.trim newSkill).
        split; [exact Hin|apply String.eqb_refl]. }
      now rewrite andb_false_r.
    + now rewrite Hblank.
Qed.

Lemma added_skill_can_be_removed_witness :
  Skills.handleRemoveSkill (Js.trim " css")
    (fst (Skills.handleAddSkill " css" ["sql"])) = ["sql"].
Proof.
  refine (proj1 (added_skill_can_be_removed " css" ["sql"]) _).
  vm_compute. intros [H | []]. discriminate.
Defined.

(** * Standup rows on the member page *)

Section StandupFacts.
Import Standups.

Lemma each_turn sid stat ts b index item :
  each sid stat (ts, b) (index, item)
  = if mentions_blocker item then (ts, blockers_of item)
    else ((ts ++ [task_of sid stat index item])%list, b).
Proof. reflexivity. Qed.

(** The loop, as a selection of the tasks and a scan for the blockers. *)
Lemma forEach_result sid stat entries ts b :
  fold_left (each sid stat) entries (ts, b)
  = ((ts ++ map (fun e => task_of sid stat (fst e) (snd e))
              (List.filter (fun e => negb (mentions_blocker (snd e))) entries))%list,
     fold_left (fun b e => if mentions_blocker (snd e) then blockers_of (snd e) else b)
               entries b).
Proof.
  revert ts b. induction entries as [|[index item] entries IH]; intros ts b.
  - simpl. now rewrite app_nil_r.
  - change (fold_left (each sid stat) ((index, item) :: entries) (ts, b))
      with (fold_left (each sid stat) entries (each sid stat (ts, b) (index, item))).
    rewrite each_turn. simpl List.filter. simpl fold_left at 2.
    destruct (mentions_blocker item); cbn [negb snd fst].
    + apply IH.
    + rewrite IH. simpl map. now rewrite <- app_assoc.
Qed.

Lemma indexed_from (start : nat) (items : list string) (i : nat) (item : string) :
  nth_error items i = Some item <->
  In ((start + i)%nat, item) (combine (seq start (List.length items)) items).
Proof.
  revert start i. induction items as [|x items IH]; intros start i; simpl.
  - split; [destruct i; discriminate|intros []].
  - split.
    + destruct i as [|i]; simpl.
      * intros [= ->]. left. f_equal. lia.
      * intros H. right. apply (IH (S start) i) in H.
        now replace (start + S i)%nat with (S start + i)%nat by lia.
    + intros [H | H].
      * injection H as Hi <-. assert (i = 0)%nat as -> by lia. reflexivity.
      * destruct i as [|i].
        -- apply in_combine_l, in_seq in H. lia.
        -- simpl. apply (IH (S start) i).
           now replace (S start + i)%nat with (start + S i)%nat by lia.
Qed.

Lemma indexed_entries (items : list string) (e : nat * string) :
  In e (indexed items) <-> nth_error items (fst e) = Some (snd e).
Proof.
  destruct e as [i item]. unfold indexed. simpl.
  rewrite (indexed_from 0 items i item). reflexivity.
Qed.

Lemma transformed_tasks member now standup :
  tasks (transformStandupData member now standup)
  = map (fun e => task_of (standup_id standup) (marks_of standup) (fst e) (snd e))
        (List.filter (fun e => negb (mentions_blocker (snd e)))
                     (indexed (content_of standup))).
Proof.
  unfold transformStandupData. fold (content_of standup). fold (marks_of standup).
  rewrite forEach_result. reflexivity.
Qed.

Lemma transformed_blockers member now standup :
  blockers (transformStandupData member now standup)
  = fold_left (fun b item => if mentions_blocker item then blockers_of item else b)
              (content_of standup) "".
Proof.
  unfold transformStandupData. fold (content_of standup). fold (marks_of standup).
  rewrite forEach_result. cbn [blockers]. unfold indexed.
  generalize 0%nat. generalize "". 
  induction (content_of standup) as [|item items IH]; intros b start; [reflexivity|].
  simpl. apply IH.
Qed.

(** The tasks of a standup are exactly its content items that mention
    neither blocker nor challenge: the item at position i becomes the task
    task-<id>-<i> with the trimmed item as text and the i-th completion
    mark, false when there is none. An item that mentions one of the two
    words anywhere is never a task. *)
Theorem tasks_are_the_other_items member now standup task :
  In task (tasks (transformStandupData member now standup)) <->
  exists i item,
    nth_error (content_of standup) i = Some item /\
    mentions_blocker item = false /\
    task = {| task_id := "task-" ++ Page.decimal (standup_id standup) ++ "-"
                         ++ Page.decimal (Z.of_nat i);
              text := Js.trim item;
              completed := nth i (marks_of standup) false |}.
Proof.
  rewrite transformed_tasks, in_map_iff. split.
  - intros [[i item] [<- H]]. apply filter_In in H as [Hin Hm].
    apply indexed_entries in Hin. apply negb_true_iff in Hm.
    now exists i, item.
  - intros [i [item [Hnth [Hm ->]]]]. exists (i, item). split; [reflexivity|].
    apply filter_In. split; [now apply indexed_entries|]. simpl. now rewrite Hm.
Qed.

(** The blockers text comes from one item only, the last that mentions
    blocker or challenge: its label blocker: or blockers: cut off and the
    rest trimmed. What earlier such items said is lost, and without such an
    item the text is empty. *)
Theorem last_blocker_item_wins member now standup :
  (forall before item after,
      content_of standup = (before ++ item :: after)%list ->
      mentions_blocker item = true ->
      (forall later, In later after -> mentions_blocker later = false) ->
      blockers (transformStandupData member now standup) = blockers_of item) /\
  ((forall item, In item (content_of standup) -> mentions_blocker item = false) ->
   blockers (transformStandupData member now standup) = "").
Proof.
  assert (forall items b,
             (forall item, In item items -> mentions_blocker item = false) ->
             fold_left (fun b item => if mentions_blocker item then blockers_of item else b)
                       items b = b) as Hquiet.
  { induction items as [|x items IH]; intros b H; [reflexivity|].
    simpl. rewrite (H x) by now left. apply IH. intros y Hy. apply H. now right. }
  split.
  - intros before item after E Hm Hafter. rewrite transformed_blockers, E.
    rewrite fold_left_app. simpl. rewrite Hm. now apply Hquiet.
  - intros H. rewrite transformed_blockers. now apply Hquiet.
Qed.
End StandupFacts.

Lemma tasks_are_the_other_items_witness :
  In {| Standups.task_id := "task-12-3"; Standups.text := "Ship it";
        Standups.completed := false |}
     (Standups.tasks (Standups.transformStandupData None "now" DemoStandups.row)).
Proof.
  apply (proj2 (tasks_are_the_other_items None "now" DemoStandups.row _)).
  exists 3%nat, "Ship it". repeat split.
Defined.

Lemma last_blocker_item_wins_witness :
  Standups.blockers (Standups.transformStandupData None "now" DemoStandups.row)
  = "waiting for keys".
Proof.
  refine (proj1 (last_blocker_item_wins None "now" DemoStandups.row)
            ["Blockers: none"; " Review search page"]
            "Blocker:  waiting for keys " ["Ship it"] eq_refl eq_refl _).
  intros later [<- | []]. reflexivity.
Defined.
